(** * cfrand: a shallow embedding of [client/cfrand.py]

    The generator XORs a 64-byte digest fetched once from a worker with
    fresh blocks of operating-system entropy, and builds the usual
    [random]-style API on top of the resulting byte stream.

    Python integers are [Z], [bytes] values are [list byte], the list that
    [shuffle] mutates in place is threaded through as a value, and every
    method that touches [os.urandom] runs in a small state-and-exception
    monad over the entropy source.  The two [while] loops of the module
    take a fuel argument. *)

From Stdlib Require Import ZArith QArith Lia Strings.Byte String Ascii.
From stdpp Require Import base tactics option list strings gmap pretty.

Local Open Scope Z_scope.
Set Warnings "-register-all".

(** ** Exceptions, the entropy source and the monad *)

Inductive exn : Type :=
  | ValueError (msg : string)
  | IndexError (msg : string)
  | RuntimeError (msg : string)
  | TypeError (msg : string)
  | AttributeError (msg : string)
  | OverflowError (msg : string).

(** [entropy c i] is byte [i] of the buffer returned by the [c]-th call of
    [os.urandom]; [urandom_calls] counts the calls made so far. *)
Record World : Type := mkWorld {
  entropy : nat → nat → byte;
  urandom_calls : nat
}.

Definition advance (n : nat) (w : World) : World :=
  {| entropy := entropy w; urandom_calls := (urandom_calls w + n)%nat |}.

Inductive outcome (A : Type) : Type :=
  | Ok (a : A) (w : World)
  | Raise (e : exn) (w : World)
  | OutOfFuel.
Arguments Ok {A} a w.
Arguments Raise {A} e w.
Arguments OutOfFuel {A}.

Definition M (A : Type) : Type := World → outcome A.

#[global] Instance M_ret : MRet M := λ A a w, Ok a w.
#[global] Instance M_bind : MBind M := λ A B f m w,
  match m w with
  | Ok a w' => f a w'
  | Raise e w' => Raise e w'
  | OutOfFuel => OutOfFuel
  end.

Definition raise {A : Type} (e : exn) : M A := λ w, Raise e w.
Definition out_of_fuel {A : Type} : M A := λ _, OutOfFuel.

(** [os.urandom(n)]: exactly [n] bytes, one call consumed. *)
Definition os_urandom (n : nat) : M (list byte) := λ w,
  Ok (map (entropy w (urandom_calls w)) (seq 0 n)) (advance 1 w).

(** ** Bytes and integers *)

(** [a ^ b] on two byte values, stored back into a [bytes] object. *)
Definition byte_xor (a b : byte) : byte :=
  match Byte.of_N (N.lxor (Byte.to_N a) (Byte.to_N b)) with
  | Some c => c
  | None => x00
  end.

(** [int.from_bytes(data, "big")]. *)
Definition int_from_bytes_big (data : list byte) : Z :=
  fold_left (λ acc b, acc * 256 + Z.of_N (Byte.to_N b)) data 0.

(** [int.bit_length()]. *)
Definition bit_length (n : Z) : Z :=
  if n =? 0 then 0 else Z.log2 (Z.abs n) + 1.

(** ** The generator instance *)

Record CFRand : Type := mkCFRand {
  _url : string;
  _timeout : Z;
  _server_bytes : list byte
}.

Section Generator.
Variable self : CFRand.

Definition _xor_block : M (list byte) :=
  entropy ← os_urandom 64;
  mret (zip_with byte_xor entropy (_server_bytes self)).

Fixpoint _random_bytes_loop (length : Z) (fuel : nat) (output : list byte)
    : M (list byte) :=
  if Z.of_nat (List.length output) <? length then
    match fuel with
    | O => out_of_fuel
    | S fuel' =>
        block ← _xor_block;
        _random_bytes_loop length fuel' (output ++ block)
    end
  else mret output.

Definition _random_bytes (fuel : nat) (length : Z) : M (list byte) :=
  if length <=? 0 then mret []
  else
    output ← _random_bytes_loop length fuel [];
    mret (take (Z.to_nat length) output).

(** [value >>= excess]; Python rejects a negative shift count. *)
Definition py_rshift (value count : Z) : M Z :=
  if count <? 0 then raise (ValueError "negative shift count")
  else mret (Z.shiftr value count).

Definition _randbits (fuel : nat) (k : Z) : M Z :=
  let byte_len := (k + 7) `div` 8 in
  data ← _random_bytes fuel byte_len;
  let value := int_from_bytes_big data in
  let excess := byte_len * 8 - k in
  if excess =? 0 then mret value
  else py_rshift value excess.

Fixpoint _randbelow_loop (fuel : nat) (bit_size upper : Z) (n : nat) : M Z :=
  match n with
  | O => out_of_fuel
  | S n' =>
      candidate ← _randbits fuel bit_size;
      if candidate <? upper then mret candidate
      else _randbelow_loop fuel bit_size upper n'
  end.

Definition _randbelow (fuel : nat) (upper : Z) : M Z :=
  if upper <=? 0 then raise (ValueError "upper must be positive")
  else
    let bit_size := bit_length upper in
    _randbelow_loop fuel bit_size upper fuel.

End Generator.

(** ** Python containers used by the derived operations *)

(** A [range] object.  The constructor rejects a zero step. *)
Record py_range_obj : Type := mkRange {
  r_start : Z;
  r_stop : Z;
  r_step : Z
}.

Definition py_range (start stop step : Z) : M py_range_obj :=
  if step =? 0 then raise (ValueError "range() arg 3 must not be zero")
  else mret (mkRange start stop step).

(** The number of elements of [rng], as the range object holds it. *)
Definition range_len (rng : py_range_obj) : Z :=
  let '(lo, hi, step) :=
    if 0 <? r_step rng then (r_start rng, r_stop rng, r_step rng)
    else (r_stop rng, r_start rng, - r_step rng) in
  if hi <=? lo then 0 else (hi - lo - 1) `div` step + 1.

(** [len(rng)]: the length has to fit a [Py_ssize_t], whose largest
    value is [sys.maxsize] ([2^31 - 1] or [2^63 - 1], by the build). *)
Definition py_len_range (maxsize : N) (rng : py_range_obj) : M Z :=
  if Z.of_N maxsize <? range_len rng then
    raise (OverflowError "Python int too large to convert to C ssize_t")
  else mret (range_len rng).

(** [rng[index]], with Python's negative indices. *)
Definition range_getitem (rng : py_range_obj) (index : Z) : M Z :=
  let n := range_len rng in
  let i := if index <? 0 then index + n else index in
  if (i <? 0) || (n <=? i) then
    raise (IndexError "range object index out of range")
  else mret (r_start rng + i * r_step rng).

(** The values a [for] loop over [rng] visits, in order. *)
Definition range_items (rng : py_range_obj) : list Z :=
  map (λ i : nat, r_start rng + Z.of_nat i * r_step rng)
      (seq 0 (Z.to_nat (range_len rng))).

(** [seq_list[index]] and [x[index] = v] on a Python list. *)
Definition list_getitem {A : Type} (l : list A) (index : Z) : M A :=
  let i := if index <? 0 then index + Z.of_nat (length l) else index in
  if i <? 0 then raise (IndexError "list index out of range")
  else match l !! Z.to_nat i with
       | Some v => mret v
       | None => raise (IndexError "list index out of range")
       end.

Definition list_setitem {A : Type} (l : list A) (index : Z) (v : A)
    : M (list A) :=
  let i := if index <? 0 then index + Z.of_nat (length l) else index in
  if (i <? 0) || (Z.of_nat (length l) <=? i) then
    raise (IndexError "list assignment index out of range")
  else mret (<[Z.to_nat i := v]> l).

(** A [for] statement whose body updates the loop-carried state [s]. *)
Fixpoint for_each {I S : Type} (items : list I) (body : I → S → M S) (s : S)
    : M S :=
  match items with
  | [] => mret s
  | i :: rest => s' ← body i s; for_each rest body s'
  end.

(** ** Derived operations *)

Section Derived.
Variable self : CFRand.
(** [sys.maxsize] of the interpreter. *)
Variable maxsize : N.

(** [value / (1 << 53)] is Python's true division.  [value] is below
    [2^53], so the quotient is a dyadic rational with a 53-bit numerator
    and the binary64 result is that rational exactly; it is kept as a
    [Q]. *)
Definition random (fuel : nat) : M Q :=
  value ← _randbits self fuel 53;
  mret (inject_Z value / inject_Z (Z.shiftl 1 53))%Q.

Definition randrange (fuel : nat) (start : Z) (stop : option Z) (step : Z)
    : M Z :=
  let '(start, stop) :=
    match stop with
    | None => (0, start)
    | Some stop => (start, stop)
    end in
  if step =? 0 then raise (ValueError "step must not be zero")
  else
    rng ← py_range start stop step;
    count ← py_len_range maxsize rng;
    if count <=? 0 then raise (ValueError "empty range for randrange()")
    else
      index ← _randbelow self fuel count;
      range_getitem rng index.

Definition randint (fuel : nat) (a b : Z) : M Z :=
  randrange fuel a (Some (b + 1)) 1.

Definition choice {A : Type} (fuel : nat) (seq : list A) : M A :=
  let seq_list := seq in
  if bool_decide (length seq_list = 0%nat) then
    raise (IndexError "Cannot choose from an empty sequence")
  else
    index ← _randbelow self fuel (Z.of_nat (length seq_list));
    list_getitem seq_list index.

(** One iteration of the loop in [shuffle]: the right-hand side
    [x[j], x[i]] is read first, then [x[i]] and [x[j]] are stored. *)
Definition shuffle_body {A : Type} (fuel : nat) (i : Z) (x : list A)
    : M (list A) :=
  j ← _randbelow self fuel (i + 1);
  xj ← list_getitem x j;
  xi ← list_getitem x i;
  x ← list_setitem x i xj;
  list_setitem x j xi.

(** [shuffle] returns [None]; the value here is the content of [x] when
    the call returns. *)
Definition shuffle {A : Type} (fuel : nat) (x : list A) : M (list A) :=
  if Z.of_nat (length x) <? 2 then mret x
  else
    rng ← py_range (Z.of_nat (length x) - 1) 0 (-1);
    for_each (range_items rng) (shuffle_body fuel) x.

End Derived.

(** ** Seed acquisition *)

(** Values produced by [json.loads].  A float keeps only whether it is
    non-zero, which is all that [not hex_digest] looks at. *)
Inductive pyobj : Type :=
  | PyNone
  | PyBool (b : bool)
  | PyInt (z : Z)
  | PyFloat (nonzero : bool)
  | PyStr (s : string)
  | PyList (l : list pyobj)
  | PyDict (d : gmap string pyobj).

(** [type(v).__name__]. *)
Definition py_type_name (v : pyobj) : string :=
  match v with
  | PyNone => "NoneType"
  | PyBool _ => "bool"
  | PyInt _ => "int"
  | PyFloat _ => "float"
  | PyStr _ => "str"
  | PyList _ => "list"
  | PyDict _ => "dict"
  end.

Definition truthy (v : pyobj) : bool :=
  match v with
  | PyNone => false
  | PyBool b => b
  | PyInt z => negb (z =? 0)
  | PyFloat nonzero => nonzero
  | PyStr s => negb (String.eqb s "")
  | PyList l => negb (bool_decide (length l = 0%nat))
  | PyDict d => negb (bool_decide (size d = 0%nat))
  end.

Definition hex_digit_value (c : ascii) : option N :=
  let n := N_of_ascii c in
  if ((48 <=? n) && (n <=? 57))%N then Some (n - 48)%N
  else if ((97 <=? n) && (n <=? 102))%N then Some (n - 87)%N
  else if ((65 <=? n) && (n <=? 70))%N then Some (n - 55)%N
  else None.

Definition is_space (c : ascii) : bool :=
  let n := N_of_ascii c in
  (((9 <=? n) && (n <=? 13)) || (n =? 32))%N.

(** [bytes.fromhex]: two hexadecimal digits per byte, ASCII whitespace
    allowed between bytes; [None] stands for its [ValueError]. *)
Fixpoint fromhex (s : string) : option (list byte) :=
  match s with
  | EmptyString => Some []
  | String c rest =>
      if is_space c then fromhex rest
      else
        match hex_digit_value c, rest with
        | Some top, String c' rest' =>
            match hex_digit_value c' with
            | Some bot =>
                match Byte.of_N (top * 16 + bot), fromhex rest' with
                | Some b, Some bs => Some (b :: bs)
                | _, _ => None
                end
            | None => None
            end
        | _, _ => None
        end
  end.

Section Construction.
(** The process environment, and the two library calls the constructor
    relies on: [urlopen] answers with a status and a decoded body or
    raises, [json.loads] parses the body or raises. *)
Variable environ : gmap string string.
Variable urlopen : string → Z → exn + (Z * string).
Variable json_loads : string → exn + pyobj.

(** The result is the instance with [_server_bytes] assigned. *)
Definition _fetch_seed (self : CFRand) : exn + CFRand :=
  match urlopen (_url self) (_timeout self) with
  | inl e => inl e
  | inr (status, body) =>
      if negb (status =? 200) then
        inl (RuntimeError ("Worker responded with status " +:+ pretty status))
      else
        match json_loads body with
        | inl e => inl e
        | inr (PyDict payload) =>
            let hex_digest := default PyNone (payload !! "hash_sha3_512") in
            if negb (truthy hex_digest) then
              inl (RuntimeError "Worker response missing hash_sha3_512")
            else
              match hex_digest with
              | PyStr hex =>
                  match fromhex hex with
                  | None => inl (RuntimeError "Worker hash is not valid hex")
                  | Some server_bytes =>
                      if bool_decide (length server_bytes ≠ 64%nat) then
                        inl (RuntimeError "Worker hash is not 512 bits")
                      else
                        inr (mkCFRand (_url self) (_timeout self) server_bytes)
                  end
              | other =>
                  inl (TypeError ("fromhex() argument must be str, not "
                                  +:+ py_type_name other))
              end
        | inr other =>
            inl (AttributeError ("'" +:+ py_type_name other
                                 +:+ "' object has no attribute 'get'"))
        end
  end.

(** [CFRand(url, timeout)]: an instance exists only when [inr] is
    returned. *)
Definition CFRand_init (url : option string) (timeout : Z) : exn + CFRand :=
  let url' :=
    match url with
    | Some u => if String.eqb u "" then environ !! "CFRAND_URL" else Some u
    | None => environ !! "CFRAND_URL"
    end in
  match url' with
  | None => inl (RuntimeError "CFRAND_URL is not set; add it to .env")
  | Some u =>
      if String.eqb u "" then
        inl (RuntimeError "CFRAND_URL is not set; add it to .env")
      else _fetch_seed (mkCFRand u timeout [])
  end.

End Construction.

(** ** Environment file *)

(** Strings are sequences of code points below 256; these are the ones
    [str.isspace] accepts, which is what [str.strip()] removes. *)
Definition py_isspace (c : ascii) : bool :=
  let n := N_of_ascii c in
  (((9 <=? n) && (n <=? 13)) || ((28 <=? n) && (n <=? 32))
   || (n =? 133) || (n =? 160))%N.

Fixpoint str_lstrip (s : string) : string :=
  match s with
  | EmptyString => EmptyString
  | String c rest => if py_isspace c then str_lstrip rest else s
  end.

Fixpoint str_rstrip (s : string) : string :=
  match s with
  | EmptyString => EmptyString
  | String c rest =>
      match str_rstrip rest with
      | EmptyString => if py_isspace c then EmptyString else String c EmptyString
      | rest' => String c rest'
      end
  end.

(** [s.strip()]. *)
Definition str_strip (s : string) : string := str_rstrip (str_lstrip s).

(** [sep in s] for a one-character [sep]. *)
Fixpoint char_in (sep : ascii) (s : string) : bool :=
  match s with
  | EmptyString => false
  | String c rest => if Ascii.eqb c sep then true else char_in sep rest
  end.

(** [s.split(sep, 1)] for a one-character [sep]. *)
Fixpoint str_split_once (sep : ascii) (s : string) : list string :=
  match s with
  | EmptyString => [EmptyString]
  | String c rest =>
      if Ascii.eqb c sep then [EmptyString; rest]
      else match str_split_once sep rest with
           | head :: tail => String c head :: tail
           | [] => [String c EmptyString]
           end
  end.

(** The state of [os.environ] when a call returns or raises. *)
Inductive env_outcome : Type :=
  | EnvOk (environ : gmap string string)
  | EnvRaise (e : exn) (environ : gmap string string).

Definition env_of (r : env_outcome) : gmap string string :=
  match r with
  | EnvOk environ => environ
  | EnvRaise _ environ => environ
  end.

(** [os.environ[key] = value]: [putenv] turns down an embedded NUL and an
    empty name or one with an equals sign. *)
Definition environ_setitem (key value : string) (environ : gmap string string)
    : env_outcome :=
  if char_in zero key || char_in zero value then
    EnvRaise (ValueError "embedded null byte") environ
  else if String.eqb key "" || char_in "=" key then
    EnvRaise (ValueError "illegal environment variable name") environ
  else EnvOk (<[key := value]> environ).

(** The body of the loop over the lines of the file. *)
Definition load_dotenv_line (line : string) (environ : gmap string string)
    : env_outcome :=
  let stripped := str_strip line in
  if String.eqb stripped "" || String.prefix "#" stripped then EnvOk environ
  else if negb (char_in "=" stripped) then EnvOk environ
  else
    match str_split_once "=" stripped with
    | [key; value] =>
        let key := str_strip key in
        if String.eqb key "" || bool_decide (is_Some (environ !! key)) then
          EnvOk environ
        else environ_setitem key (str_strip value) environ
    | _ => EnvRaise (ValueError "not enough values to unpack") environ
    end.

Fixpoint load_dotenv_lines (lines : list string) (environ : gmap string string)
    : env_outcome :=
  match lines with
  | [] => EnvOk environ
  | line :: rest =>
      match load_dotenv_line line environ with
      | EnvOk environ' => load_dotenv_lines rest environ'
      | EnvRaise e environ' => EnvRaise e environ'
      end
  end.

Section ModuleLevel.
(** The file system as [load_dotenv] sees it: the two candidate paths
    [<module dir>/.env] and [<parent dir>/.env], whether a path exists, and
    [read_text().splitlines()] of a path, which may raise. *)
Variable candidates : list string.
Variable path_exists : string → bool.
Variable read_lines : string → exn + list string.
Variable urlopen : string → Z → exn + (Z * string).
Variable json_loads : string → exn + pyobj.

Definition load_dotenv (environ : gmap string string) : env_outcome :=
  let env_path := List.find path_exists candidates in
  match env_path with
  | None => EnvOk environ
  | Some env_path =>
      match read_lines env_path with
      | inl e => EnvRaise e environ
      | inr lines => load_dotenv_lines lines environ
      end
  end.

(** Importing the module: [load_dotenv()] runs, then
    [_default_rng = CFRand()].  The result is the environment left behind
    and the default generator, or the exception that ended the import. *)
Definition import_module (environ : gmap string string)
    : gmap string string * (exn + CFRand) :=
  match load_dotenv environ with
  | EnvRaise e environ' => (environ', inl e)
  | EnvOk environ' =>
      (environ', CFRand_init environ' urlopen json_loads None 10)
  end.

End ModuleLevel.

(** The assignment a line of the file stands for, if any: key and value
    with the surrounding whitespace removed. *)
Definition line_assignment (line : string) : option (string * string) :=
  let stripped := str_strip line in
  if String.eqb stripped "" || String.prefix "#" stripped then None
  else
    match str_split_once "=" stripped with
    | [key; value] =>
        if String.eqb (str_strip key) "" then None
        else Some (str_strip key, str_strip value)
    | _ => None
    end.

(** The value of the first line of the file that assigns [key]. *)
Fixpoint first_assignment (lines : list string) (key : string) : option string :=
  match lines with
  | [] => None
  | line :: rest =>
      match line_assignment line with
      | Some (k, v) => if String.eqb k key then Some v
                       else first_assignment rest key
      | None => first_assignment rest key
      end
  end.

(** ** Definitions used to state the properties *)

(** The value of a byte string read most significant byte first. *)
Fixpoint big_endian_value (data : list byte) : Z :=
  match data with
  | [] => 0
  | b :: rest => Z.of_N (Byte.to_N b) * 256 ^ Z.of_nat (length rest)
                 + big_endian_value rest
  end.

(** The block that the [c]-th call of [os.urandom] turns into, and [n]
    consecutive blocks from call [c] on. *)
Definition mixed_block (self : CFRand) (e : nat → nat → byte) (c : nat)
    : list byte :=
  zip_with byte_xor (map (e c) (seq 0 64)) (_server_bytes self).

Fixpoint mixed_stream (self : CFRand) (e : nat → nat → byte) (c n : nat)
    : list byte :=
  match n with
  | O => []
  | S n' => mixed_block self e c ++ mixed_stream self e (S c) n'
  end.

(** Number of 64-byte blocks that cover [length] bytes. *)
Definition blocks_needed (length : Z) : nat := Z.to_nat ((length + 63) `div` 64).

(** The outcome of the [(n+1)]-th of consecutive calls [_randbits(k)]. *)
Fixpoint nth_draw (self : CFRand) (fuel : nat) (k : Z) (n : nat) : M Z :=
  match n with
  | O => _randbits self fuel k
  | S n' => _ ← _randbits self fuel k; nth_draw self fuel k n'
  end.

(** Draw [n] (counting from 0) is the first one below [upper]: it returns
    [v] and leaves the world [w'], and every earlier draw returned a value
    that is at least [upper]. *)
Definition first_accepted (self : CFRand) (fuel : nat) (k upper : Z) (n : nat)
    (w : World) (v : Z) (w' : World) : Prop :=
  nth_draw self fuel k n w = Ok v w' ∧ v < upper ∧
  ∀ i, (i < n)%nat → ∃ c wi, nth_draw self fuel k i w = Ok c wi ∧ upper ≤ c.

(** [b] is the least bit count with [upper < 2^b], respectively with
    [upper <= 2^b]. *)
Definition least_bits_lt (upper b : Z) : Prop :=
  0 ≤ b ∧ upper < 2 ^ b ∧ ∀ b', 0 ≤ b' → upper < 2 ^ b' → b ≤ b'.

Definition least_bits_le (upper b : Z) : Prop :=
  0 ≤ b ∧ upper ≤ 2 ^ b ∧ ∀ b', 0 ≤ b' → upper ≤ 2 ^ b' → b ≤ b'.

(** [v] comes before [stop] when walking in the direction of [step]. *)
Definition before_stop (stop step v : Z) : Prop :=
  (0 < step ∧ v < stop) ∨ (step < 0 ∧ stop < v).

(** Exchange of the elements at positions [i] and [j]. *)
Definition swap {A : Type} (x : list A) (i j : nat) : list A :=
  match x !! i, x !! j with
  | Some xi, Some xj => <[j := xi]> (<[i := xj]> x)
  | _, _ => x
  end.

(** Fisher–Yates as the specification words it: [i] runs from its first
    value down to 1, each step draws [j] below [i + 1] and exchanges the
    elements at [i] and [j]. *)
Fixpoint fisher_yates {A : Type} (draw : Z → M Z) (i : nat) (x : list A)
    : M (list A) :=
  match i with
  | O => mret x
  | S i' =>
      j ← draw (Z.of_nat i + 1);
      fisher_yates draw i' (swap x i (Z.to_nat j))
  end.

(** Test fixtures: an all-zero and an all-[0xff] seed, and entropy sources
    that repeat one byte. *)
Definition zero_seed : CFRand := mkCFRand "http://worker" 10 (replicate 64 x00).
Definition ones_seed : CFRand := mkCFRand "http://worker" 10 (replicate 64 xff).
Definition constant_world (b : byte) : World := mkWorld (λ _ _, b) 0.

(** An entropy source whose first two buffers are all [0xff] and [0xe0]
    and whose later buffers are all [0x60]. *)
Definition stepping_world : World :=
  mkWorld (λ c _, match c with O => xff | S O => xe0 | _ => x60 end) 0.

(** ** Definitions for the entropy that leads to a chosen result *)

Definition byte_of_Z (z : Z) : byte :=
  match Byte.of_N (Z.to_N (z `mod` 256)) with
  | Some b => b
  | None => x00
  end.

(** The [n] bytes that [int.from_bytes(..., "big")] reads back as [v]. *)
Fixpoint to_bytes_big (n : nat) (v : Z) : list byte :=
  match n with
  | O => []
  | S n' => to_bytes_big n' (v `div` 256) ++ [byte_of_Z v]
  end.

(** An entropy source whose buffers, once mixed with the seed of [self],
    spell out [target] from call 0 on (and zero bytes after its end). *)
Definition entropy_for (self : CFRand) (target : list byte) : nat → nat → byte :=
  λ c i, byte_xor (default x00 (target !! (c * 64 + i)%nat))
                  (default x00 (_server_bytes self !! i)).

(** The world in which [_randbits(k)] draws [v], and the one in which the
    first draw of [_randbelow(upper)] is [v]. *)
Definition world_bits (self : CFRand) (k v : Z) : World :=
  let byte_len := (k + 7) `div` 8 in
  mkWorld (entropy_for self
             (to_bytes_big (Z.to_nat byte_len)
                           (Z.shiftl v (byte_len * 8 - k))))
          0.

Definition world_for (self : CFRand) (upper v : Z) : World :=
  world_bits self (bit_length upper) v.

(** ** Definitions for the digest as the worker sends it *)

Definition is_hex_digit (c : ascii) : bool :=
  match hex_digit_value c with
  | Some _ => true
  | None => false
  end.

(** The lowercase digit for a value below 16. *)
Definition hex_char (n : N) : ascii :=
  if (n <? 10)%N then ascii_of_N (48 + n) else ascii_of_N (87 + n).

(** [bytes.hex()]: two lowercase digits per byte. *)
Fixpoint hex_of_bytes (bs : list byte) : string :=
  match bs with
  | [] => EmptyString
  | b :: rest =>
      String (hex_char (Byte.to_N b / 16))
        (String (hex_char (Byte.to_N b mod 16)) (hex_of_bytes rest))
  end.

(** Number of hexadecimal digits in a string. *)
Fixpoint hex_digit_count (s : string) : nat :=
  match s with
  | EmptyString => 0
  | String c rest =>
      if is_hex_digit c then S (hex_digit_count rest) else hex_digit_count rest
  end.

(** The URL the constructor settles on: the argument when it is truthy,
    else [CFRAND_URL] from the environment. *)
Definition effective_url (environ : gmap string string) (url : option string)
    : option string :=
  match url with
  | Some u => if String.eqb u "" then environ !! "CFRAND_URL"%string else Some u
  | None => environ !! "CFRAND_URL"%string
  end.

(** * Properties *)

Ltac unfold_monad :=
  unfold mbind, M_bind, mret, M_ret, raise, out_of_fuel in *.

Lemma advance_0 w : advance 0 w = w.
Proof. destruct w; unfold advance; simpl; f_equal; lia. Qed.

Lemma advance_advance n m w : advance n (advance m w) = advance (m + n) w.
Proof. unfold advance; simpl; f_equal; lia. Qed.

Lemma bind_Ok {A B} (m : M A) (f : A → M B) w a w' :
  m w = Ok a w' → (m ≫= f) w = f a w'.
Proof. unfold_monad. by intros ->. Qed.

(** ** Bytes *)

Lemma byte_xor_to_N a b :
  Byte.to_N (byte_xor a b) = N.lxor (Byte.to_N a) (Byte.to_N b).
Proof.
  unfold byte_xor.
  destruct (Byte.of_N _) as [c|] eqn:E.
  - by apply Byte.to_of_N in E.
  - apply Byte.of_N_None_iff in E.
    pose proof (Byte.to_N_bounded a) as Ha.
    pose proof (Byte.to_N_bounded b) as Hb.
    set (x := Byte.to_N a) in *. set (y := Byte.to_N b) in *.
    assert (N.lxor x y < 2 ^ 8)%N; [|simpl in *; lia].
    destruct (N.eq_dec (N.lxor x y) 0%N) as [->|Hnz]; [done|].
    apply N.log2_lt_pow2; [lia|].
    pose proof (N.log2_lxor x y) as Hl.
    assert (N.log2 x < 8)%N.
    { destruct (N.eq_dec x 0%N) as [->|]; [done|]. apply N.log2_lt_pow2; simpl; lia. }
    assert (N.log2 y < 8)%N.
    { destruct (N.eq_dec y 0%N) as [->|]; [done|]. apply N.log2_lt_pow2; simpl; lia. }
    lia.
Qed.

Lemma byte_range (b : byte) : 0 ≤ Z.of_N (Byte.to_N b) < 256.
Proof. pose proof (Byte.to_N_bounded b). lia. Qed.

Lemma int_from_bytes_big_snoc data b :
  int_from_bytes_big (data ++ [b])
  = int_from_bytes_big data * 256 + Z.of_N (Byte.to_N b).
Proof. unfold int_from_bytes_big. by rewrite fold_left_app. Qed.

Lemma big_endian_value_snoc data b :
  big_endian_value (data ++ [b])
  = big_endian_value data * 256 + Z.of_N (Byte.to_N b).
Proof.
  induction data as [|a data IH]; simpl; [lia|].
  rewrite IH, length_app; simpl.
  replace (Z.of_nat (length data + 1)) with (Z.of_nat (length data) + 1) by lia.
  rewrite Z.pow_add_r by lia. lia.
Qed.

Lemma int_from_bytes_big_spec data :
  int_from_bytes_big data = big_endian_value data.
Proof.
  induction data as [|b data IH] using rev_ind; [done|].
  by rewrite int_from_bytes_big_snoc, big_endian_value_snoc, IH.
Qed.

Lemma big_endian_value_range data :
  0 ≤ big_endian_value data < 256 ^ Z.of_nat (length data).
Proof.
  induction data as [|b data IH]; simpl length; simpl big_endian_value; [simpl; lia|].
  pose proof (byte_range b).
  replace (Z.of_nat (S (length data))) with (Z.of_nat (length data) + 1) by lia.
  rewrite Z.pow_add_r by lia.
  assert (0 < 256 ^ Z.of_nat (length data)) by (apply Z.pow_pos_nonneg; lia).
  nia.
Qed.

Lemma int_from_bytes_big_range data :
  0 ≤ int_from_bytes_big data < 2 ^ (8 * Z.of_nat (length data)).
Proof.
  rewrite int_from_bytes_big_spec, Z.pow_mul_r by lia.
  apply big_endian_value_range.
Qed.

(** ** The byte stream *)

Lemma xor_block_eval self w :
  _xor_block self w
  = Ok (mixed_block self (entropy w) (urandom_calls w)) (advance 1 w).
Proof. reflexivity. Qed.

Lemma mixed_block_length self e c :
  length (_server_bytes self) = 64%nat → length (mixed_block self e c) = 64%nat.
Proof.
  intros Hseed. unfold mixed_block.
  rewrite length_zip_with, length_map, length_seq, Hseed. done.
Qed.

Lemma mixed_stream_length self e c n :
  length (_server_bytes self) = 64%nat →
  length (mixed_stream self e c n) = (64 * n)%nat.
Proof.
  intros Hseed. revert c.
  induction n as [|n IH]; intros c; simpl; [done|].
  rewrite length_app, mixed_block_length, IH by done. lia.
Qed.

Lemma blocks_needed_nonpos x : x ≤ 0 → blocks_needed x = 0%nat.
Proof.
  intros Hx. unfold blocks_needed.
  assert ((x + 63) `div` 64 ≤ 0); [|lia].
  assert ((x + 63) `div` 64 < 1); [|lia].
  apply Z.div_lt_upper_bound; lia.
Qed.

Lemma blocks_needed_pos x : 0 < x → blocks_needed x = S (blocks_needed (x - 64)).
Proof.
  intros Hx. unfold blocks_needed.
  replace (x + 63) with ((x - 1) + 1 * 64) by lia.
  replace (x - 64 + 63) with (x - 1) by lia.
  rewrite Z.div_add by lia.
  assert (0 ≤ (x - 1) `div` 64) by (apply Z.div_pos; lia).
  lia.
Qed.

Lemma blocks_needed_enough x : 0 ≤ x → x ≤ 64 * Z.of_nat (blocks_needed x).
Proof.
  intros Hx. unfold blocks_needed.
  assert (0 ≤ (x + 63) `div` 64) by (apply Z.div_pos; lia).
  rewrite Z2Nat.id by done.
  pose proof (Z.mul_div_le (x + 63) 64 ltac:(lia)).
  pose proof (Z.mod_pos_bound (x + 63) 64 ltac:(lia)).
  pose proof (Z.div_mod (x + 63) 64 ltac:(lia)). lia.
Qed.

Lemma random_bytes_loop_unfold self L fuel output :
  _random_bytes_loop self L fuel output
  = if Z.of_nat (length output) <? L then
      match fuel with
      | O => out_of_fuel
      | S fuel' =>
          block ← _xor_block self;
          _random_bytes_loop self L fuel' (output ++ block)
      end
    else mret output.
Proof. by destruct fuel. Qed.

Lemma random_bytes_loop_eval self L fuel output w :
  length (_server_bytes self) = 64%nat →
  (blocks_needed (L - Z.of_nat (length output)) ≤ fuel)%nat →
  _random_bytes_loop self L fuel output w
  = Ok (output ++ mixed_stream self (entropy w) (urandom_calls w)
                    (blocks_needed (L - Z.of_nat (length output))))
       (advance (blocks_needed (L - Z.of_nat (length output))) w).
Proof.
  intros Hseed. revert output w.
  induction fuel as [|fuel IH]; intros output w Hfuel;
    rewrite random_bytes_loop_unfold;
    destruct (Z.ltb_spec (Z.of_nat (length output)) L) as [Hlt|Hge].
  - rewrite blocks_needed_pos in Hfuel by lia. lia.
  - rewrite blocks_needed_nonpos by lia. simpl.
    by rewrite app_nil_r, advance_0.
  - rewrite blocks_needed_pos in * by lia.
    rewrite (bind_Ok _ _ _ _ _ (xor_block_eval self w)).
    set (block := mixed_block self (entropy w) (urandom_calls w)).
    assert (Hlen : L - Z.of_nat (length (output ++ block))
                   = L - Z.of_nat (length output) - 64).
    { rewrite length_app. unfold block. rewrite mixed_block_length by done. lia. }
    rewrite IH; rewrite Hlen; [|lia].
    simpl mixed_stream. rewrite advance_advance. simpl.
    replace (urandom_calls w + 1)%nat with (S (urandom_calls w)) by lia.
    by rewrite <- app_assoc.
  - rewrite blocks_needed_nonpos by lia. simpl.
    by rewrite app_nil_r, advance_0.
Qed.

Lemma random_bytes_eval self fuel L w :
  length (_server_bytes self) = 64%nat →
  0 < L →
  (blocks_needed L ≤ fuel)%nat →
  _random_bytes self fuel L w
  = Ok (take (Z.to_nat L)
             (mixed_stream self (entropy w) (urandom_calls w) (blocks_needed L)))
       (advance (blocks_needed L) w).
Proof.
  intros Hseed HL Hfuel. unfold _random_bytes.
  destruct (Z.leb_spec L 0); [lia|].
  pose proof (random_bytes_loop_eval self L fuel [] w Hseed) as Hloop.
  simpl in Hloop. rewrite Z.sub_0_r in Hloop.
  by rewrite (bind_Ok _ _ _ _ _ (Hloop Hfuel)).
Qed.

Lemma random_bytes_length self fuel L w data w' :
  length (_server_bytes self) = 64%nat →
  0 ≤ L →
  (blocks_needed L ≤ fuel)%nat →
  _random_bytes self fuel L w = Ok data w' →
  Z.of_nat (length data) = L.
Proof.
  intros Hseed HL Hfuel Hrun.
  destruct (Z.eq_dec L 0) as [->|Hnz].
  - unfold _random_bytes in Hrun. simpl in Hrun. by inversion Hrun.
  - rewrite random_bytes_eval in Hrun by (done || lia).
    inversion Hrun; subst.
    rewrite length_take, mixed_stream_length by done.
    pose proof (blocks_needed_enough L HL). lia.
Qed.

(** The byte loop never raises, whatever the seed and the fuel. *)
Lemma random_bytes_loop_no_raise self L fuel output w e w' :
  _random_bytes_loop self L fuel output w ≠ Raise e w'.
Proof.
  revert output w.
  induction fuel as [|fuel IH]; intros output w;
    rewrite random_bytes_loop_unfold;
    destruct (Z.of_nat (length output) <? L); try done.
  unfold mbind, M_bind. rewrite xor_block_eval. apply IH.
Qed.

Lemma random_bytes_no_raise self fuel L w e w' :
  _random_bytes self fuel L w ≠ Raise e w'.
Proof.
  unfold _random_bytes. destruct (L <=? 0); [done|].
  unfold mbind, M_bind.
  destruct (_random_bytes_loop self L fuel [] w) eqn:E; try done.
  by apply random_bytes_loop_no_raise in E.
Qed.

(** C10. For every [length <= 0], negative lengths included,
    [_random_bytes(length)] returns the empty byte string: the world it
    leaves is the world it started in, so [os.urandom] was not called, and
    nothing is raised.  This holds for every fuel, zero included. *)
Theorem random_bytes_nonpositive (self : CFRand) (fuel : nat) (length : Z)
    (w : World) :
  length ≤ 0 → _random_bytes self fuel length w = Ok [] w.
Proof.
  intros Hlen. unfold _random_bytes.
  by destruct (Z.leb_spec length 0); [|lia].
Qed.

Lemma random_bytes_nonpositive_witness :
  -3 ≤ 0 ∧ _random_bytes zero_seed 0 (-3) (constant_world x2a)
           = Ok [] (constant_world x2a).
Proof.
  split; [lia|]. apply (random_bytes_nonpositive zero_seed 0 (-3)). lia.
Defined.

(** Whatever the seed, a byte string that [_random_bytes] returns has the
    requested length: the loop only exits once [output] is long enough. *)
Lemma random_bytes_loop_post self L fuel output w r w' :
  _random_bytes_loop self L fuel output w = Ok r w' → L ≤ Z.of_nat (length r).
Proof.
  revert output w.
  induction fuel as [|fuel IH]; intros output w;
    rewrite random_bytes_loop_unfold;
    destruct (Z.ltb_spec (Z.of_nat (length output)) L); try done.
  - by intros [= <- <-].
  - unfold mbind, M_bind. rewrite xor_block_eval. apply IH.
  - by intros [= <- <-].
Qed.

Lemma random_bytes_length_any self fuel L w data w' :
  0 ≤ L →
  _random_bytes self fuel L w = Ok data w' →
  Z.of_nat (length data) = L.
Proof.
  intros HL. unfold _random_bytes.
  destruct (Z.leb_spec L 0).
  - intros [= <- <-]. simpl. lia.
  - unfold mbind, M_bind.
    destruct (_random_bytes_loop self L fuel [] w) as [out w1| |] eqn:E; try done.
    apply random_bytes_loop_post in E. intros [= <- <-].
    rewrite length_take. lia.
Qed.

(** ** [_randbits] *)

Lemma byte_len_bounds k : 0 ≤ (k + 7) `div` 8 * 8 - k ≤ 7.
Proof.
  pose proof (Z.div_mod (k + 7) 8 ltac:(lia)).
  pose proof (Z.mod_pos_bound (k + 7) 8 ltac:(lia)). lia.
Qed.

(** [_randbits] is [_random_bytes] followed by the shift; shifting by zero
    bits is the identity, so the test on [excess] does not show. *)
Lemma randbits_run self fuel k w :
  _randbits self fuel k w
  = match _random_bytes self fuel ((k + 7) `div` 8) w with
    | Ok data w' =>
        Ok (Z.shiftr (int_from_bytes_big data) ((k + 7) `div` 8 * 8 - k)) w'
    | Raise e w' => Raise e w'
    | OutOfFuel => OutOfFuel
    end.
Proof.
  unfold _randbits, mbind, M_bind.
  destruct (_random_bytes self fuel _ w) as [data w'| |]; try done.
  pose proof (byte_len_bounds k) as Hex.
  destruct (Z.eqb_spec ((k + 7) `div` 8 * 8 - k) 0) as [->|Hnz].
  - by rewrite Z.shiftr_0_r.
  - unfold py_rshift. by destruct (Z.ltb_spec ((k + 7) `div` 8 * 8 - k) 0); [lia|].
Qed.

Lemma randbits_nonneg self fuel k w v w' :
  _randbits self fuel k w = Ok v w' → 0 ≤ v.
Proof.
  rewrite randbits_run.
  destruct (_random_bytes self fuel _ w) as [data w1| |]; try done.
  intros [= <- <-]. apply Z.shiftr_nonneg, int_from_bytes_big_range.
Qed.

Lemma randbits_range self fuel k w v w' :
  0 ≤ k → _randbits self fuel k w = Ok v w' → 0 ≤ v < 2 ^ k.
Proof.
  intros Hk Hrun. split; [by eapply randbits_nonneg|].
  rewrite randbits_run in Hrun.
  pose proof (byte_len_bounds k) as Hex.
  destruct (_random_bytes self fuel _ w) as [data w1| |] eqn:E; try done.
  apply random_bytes_length_any in E; [|lia].
  inversion Hrun; subst v w1.
  pose proof (int_from_bytes_big_range data) as Hrange. rewrite E in Hrange.
  rewrite Z.shiftr_div_pow2 by lia.
  apply Z.div_lt_upper_bound; [apply Z.pow_pos_nonneg; lia|].
  rewrite <- Z.pow_add_r by lia.
  replace ((k + 7) `div` 8 * 8 - k + k) with (8 * ((k + 7) `div` 8)) by lia.
  lia.
Qed.

Lemma randbits_no_raise self fuel k w e w' :
  _randbits self fuel k w ≠ Raise e w'.
Proof.
  rewrite randbits_run.
  destruct (_random_bytes self fuel _ w) as [data w1| |] eqn:E; try done.
  by apply random_bytes_no_raise in E.
Qed.

Lemma randbits_eval self fuel k w :
  length (_server_bytes self) = 64%nat →
  1 ≤ k →
  (blocks_needed ((k + 7) `div` 8) ≤ fuel)%nat →
  ∃ data,
    Z.of_nat (length data) = (k + 7) `div` 8 ∧
    _randbits self fuel k w
    = Ok (Z.shiftr (int_from_bytes_big data) ((k + 7) `div` 8 * 8 - k))
         (advance (blocks_needed ((k + 7) `div` 8)) w).
Proof.
  intros Hseed Hk Hfuel.
  pose proof (byte_len_bounds k) as Hex.
  assert (Hpos : 0 < (k + 7) `div` 8) by lia.
  pose proof (random_bytes_eval self fuel _ w Hseed Hpos Hfuel) as Hrun.
  eexists. split; [|by rewrite randbits_run, Hrun].
  eapply random_bytes_length_any; [|exact Hrun]. lia.
Qed.

(** C2. For every [k >= 1] and every instance holding a 64-byte seed,
    [_randbits(k)] with enough fuel for the byte loop computes
    [byte_len = ceil(k / 8)], obtains exactly [byte_len] bytes from
    [_random_bytes], reads them as a big-endian unsigned integer, shifts
    that integer right by [byte_len * 8 - k] bits, which drops the
    low-order padding bits, and returns a value in [[0, 2^k - 1]]. *)
Theorem randbits_spec (self : CFRand) (fuel : nat) (k byte_len : Z)
    (w : World) :
  length (_server_bytes self) = 64%nat →
  1 ≤ k →
  byte_len = (k + 7) `div` 8 →
  (blocks_needed byte_len ≤ fuel)%nat →
  8 * (byte_len - 1) < k ≤ 8 * byte_len ∧
  ∃ (data : list byte) (w' : World),
    _random_bytes self fuel byte_len w = Ok data w' ∧
    Z.of_nat (length data) = byte_len ∧
    w' = advance (blocks_needed byte_len) w ∧
    _randbits self fuel k w
    = Ok (Z.shiftr (big_endian_value data) (byte_len * 8 - k)) w' ∧
    Z.shiftr (big_endian_value data) (byte_len * 8 - k)
    = big_endian_value data `div` 2 ^ (byte_len * 8 - k) ∧
    0 ≤ Z.shiftr (big_endian_value data) (byte_len * 8 - k) ≤ 2 ^ k - 1.
Proof.
  intros Hseed Hk -> Hfuel.
  pose proof (byte_len_bounds k) as Hex.
  set (byte_len := (k + 7) `div` 8) in *.
  assert (Hpos : 0 < byte_len) by lia.
  split; [lia|].
  pose proof (random_bytes_eval self fuel byte_len w Hseed Hpos Hfuel) as Hrun.
  eexists _, _. split; [exact Hrun|].
  assert (Hnn : 0 ≤ byte_len) by lia.
  pose proof (random_bytes_length _ _ _ _ _ _ Hseed Hnn Hfuel Hrun) as Hlen.
  split; [done|]. split; [done|].
  split.
  { rewrite randbits_run. fold byte_len. rewrite Hrun.
    by rewrite int_from_bytes_big_spec. }
  rewrite Z.shiftr_div_pow2 by lia. split; [done|].
  match goal with |- context [big_endian_value ?d] => set (data := d) in * end.
  pose proof (int_from_bytes_big_range data) as Hrange.
  rewrite int_from_bytes_big_spec, Hlen in Hrange.
  assert (H2 : 0 < 2 ^ (byte_len * 8 - k)) by (apply Z.pow_pos_nonneg; lia).
  split; [apply Z.div_pos; lia|].
  assert (big_endian_value data `div` 2 ^ (byte_len * 8 - k) < 2 ^ k); [|lia].
  apply Z.div_lt_upper_bound; [done|].
  rewrite <- Z.pow_add_r by lia.
  replace (byte_len * 8 - k + k) with (8 * byte_len) by lia. lia.
Qed.

Lemma randbits_spec_witness :
  8 * (1 - 1) < 5 ≤ 8 * 1 ∧
  ∃ (data : list byte) (w' : World),
    _random_bytes zero_seed 1 1 (constant_world xb7) = Ok data w' ∧
    Z.of_nat (length data) = 1 ∧
    w' = advance (blocks_needed 1) (constant_world xb7) ∧
    _randbits zero_seed 1 5 (constant_world xb7)
    = Ok (Z.shiftr (big_endian_value data) (1 * 8 - 5)) w' ∧
    Z.shiftr (big_endian_value data) (1 * 8 - 5)
    = big_endian_value data `div` 2 ^ (1 * 8 - 5) ∧
    0 ≤ Z.shiftr (big_endian_value data) (1 * 8 - 5) ≤ 2 ^ 5 - 1.
Proof.
  apply (randbits_spec zero_seed 1 5 1 (constant_world xb7));
    [reflexivity | lia | reflexivity | vm_compute; lia].
Defined.

(** ** [_randbelow] *)

Lemma bit_length_least upper : 0 < upper → least_bits_lt upper (bit_length upper).
Proof.
  intros Hpos. unfold least_bits_lt, bit_length.
  destruct (Z.eqb_spec upper 0); [lia|].
  rewrite Z.abs_eq by lia.
  pose proof (Z.log2_nonneg upper).
  pose proof (Z.log2_spec upper Hpos) as [_ Hlt].
  replace (Z.succ (Z.log2 upper)) with (Z.log2 upper + 1) in Hlt by lia.
  repeat split; [lia|done|].
  intros b' Hb' Hup.
  apply Z.log2_lt_pow2 in Hup; lia.
Qed.

Lemma nth_draw_step self fuel k n w c w1 :
  _randbits self fuel k w = Ok c w1 →
  nth_draw self fuel k (S n) w = nth_draw self fuel k n w1.
Proof. intros H. simpl. by rewrite (bind_Ok _ _ _ _ _ H). Qed.

Lemma nth_draw_first_fails self fuel k n w v w' :
  (∀ c w1, _randbits self fuel k w ≠ Ok c w1) →
  nth_draw self fuel k n w ≠ Ok v w'.
Proof.
  intros Hfail. destruct n as [|n]; simpl; [apply Hfail|].
  unfold mbind, M_bind.
  destruct (_randbits self fuel k w) as [c w1| |]; try done.
  by destruct (Hfail c w1).
Qed.

Lemma randbelow_loop_first self fuel k upper m w v w' :
  _randbelow_loop self fuel k upper m w = Ok v w'
  ↔ ∃ n, (n < m)%nat ∧ first_accepted self fuel k upper n w v w'.
Proof.
  revert w. induction m as [|m IH]; intros w.
  { split; [done|]. intros (n & Hn & _). lia. }
  simpl. unfold mbind at 1, M_bind at 1.
  destruct (_randbits self fuel k w) as [c w1| |] eqn:Hdraw.
  - destruct (Z.ltb_spec c upper) as [Hlt|Hge].
    + split.
      * intros [= <- <-]. exists 0%nat. split; [lia|].
        split; [done|]. split; [done|]. intros i Hi. lia.
      * intros (n & _ & Hn & Hv & Hprev). destruct n as [|n].
        -- simpl in Hn. rewrite Hdraw in Hn. done.
        -- destruct (Hprev 0%nat ltac:(lia)) as (c' & wi & Hc' & Hup).
           simpl in Hc'. rewrite Hdraw in Hc'. inversion Hc'; subst. lia.
    + rewrite IH. split.
      * intros (n & Hn & Hacc & Hv & Hprev). exists (S n). split; [lia|].
        split; [by rewrite (nth_draw_step _ _ _ _ _ _ _ Hdraw)|].
        split; [done|]. intros [|i] Hi.
        -- by exists c, w1.
        -- rewrite (nth_draw_step _ _ _ _ _ _ _ Hdraw). apply Hprev. lia.
      * intros (n & Hn & Hacc & Hv & Hprev). destruct n as [|n].
        -- simpl in Hacc. rewrite Hdraw in Hacc. inversion Hacc; subst. lia.
        -- exists n. split; [lia|].
           rewrite (nth_draw_step _ _ _ _ _ _ _ Hdraw) in Hacc.
           split; [done|]. split; [done|]. intros i Hi.
           rewrite <- (nth_draw_step _ _ _ _ _ _ _ Hdraw). apply Hprev. lia.
  - split; [done|]. intros (n & _ & Hacc & _).
    eapply nth_draw_first_fails in Hacc; [done|]. intros ??. by rewrite Hdraw.
  - split; [done|]. intros (n & _ & Hacc & _).
    eapply nth_draw_first_fails in Hacc; [done|]. intros ??. by rewrite Hdraw.
Qed.

Lemma randbelow_loop_no_raise self fuel k upper m w e w' :
  _randbelow_loop self fuel k upper m w ≠ Raise e w'.
Proof.
  revert w. induction m as [|m IH]; intros w; simpl; [done|].
  unfold mbind, M_bind.
  destruct (_randbits self fuel k w) as [c w1| |] eqn:Hdraw; try done.
  - destruct (c <? upper); [done|apply IH].
  - by apply randbits_no_raise in Hdraw.
Qed.

Lemma randbelow_unfold self fuel upper w :
  0 < upper →
  _randbelow self fuel upper w
  = _randbelow_loop self fuel (bit_length upper) upper fuel w.
Proof. intros. unfold _randbelow. by destruct (Z.leb_spec upper 0); [lia|]. Qed.

(** *** More fuel never changes a result *)

Lemma random_bytes_loop_mono self L fuel fuel' output w r w' :
  (fuel ≤ fuel')%nat →
  _random_bytes_loop self L fuel output w = Ok r w' →
  _random_bytes_loop self L fuel' output w = Ok r w'.
Proof.
  revert fuel' output w.
  induction fuel as [|fuel IH]; intros fuel' output w Hle;
    rewrite !random_bytes_loop_unfold;
    destruct (Z.of_nat (length output) <? L); try done.
  destruct fuel' as [|fuel']; [lia|].
  unfold mbind, M_bind. rewrite xor_block_eval. apply IH. lia.
Qed.

Lemma random_bytes_mono self fuel fuel' L w r w' :
  (fuel ≤ fuel')%nat →
  _random_bytes self fuel L w = Ok r w' →
  _random_bytes self fuel' L w = Ok r w'.
Proof.
  intros Hle. unfold _random_bytes. destruct (L <=? 0); [done|].
  unfold mbind, M_bind.
  destruct (_random_bytes_loop self L fuel [] w) as [out w1| |] eqn:E; try done.
  by rewrite (random_bytes_loop_mono _ _ _ _ _ _ _ _ Hle E).
Qed.

Lemma randbits_mono self fuel fuel' k w v w' :
  (fuel ≤ fuel')%nat →
  _randbits self fuel k w = Ok v w' →
  _randbits self fuel' k w = Ok v w'.
Proof.
  intros Hle. rewrite !randbits_run.
  destruct (_random_bytes self fuel _ w) as [data w1| |] eqn:E; try done.
  by rewrite (random_bytes_mono _ _ _ _ _ _ _ Hle E).
Qed.

Lemma nth_draw_mono self fuel fuel' k n w v w' :
  (fuel ≤ fuel')%nat →
  nth_draw self fuel k n w = Ok v w' →
  nth_draw self fuel' k n w = Ok v w'.
Proof.
  intros Hle. revert w.
  induction n as [|n IH]; intros w; simpl; [by apply randbits_mono|].
  unfold mbind, M_bind.
  destruct (_randbits self fuel k w) as [c w1| |] eqn:E; try done.
  rewrite (randbits_mono _ _ _ _ _ _ _ Hle E). apply IH.
Qed.

Lemma first_accepted_mono self fuel fuel' k upper n w v w' :
  (fuel ≤ fuel')%nat →
  first_accepted self fuel k upper n w v w' →
  first_accepted self fuel' k upper n w v w'.
Proof.
  intros Hle (Hacc & Hv & Hprev).
  split; [by eapply nth_draw_mono|]. split; [done|].
  intros i Hi. destruct (Hprev i Hi) as (c & wi & Hc & Hup).
  exists c, wi. split; [by eapply nth_draw_mono|done].
Qed.

(** C1 (as amended). For every [upper > 0], [_randbelow(upper)] draws its
    candidates with [_randbits(bit_size)], where [bit_size] is the bit
    length of [upper], that is the least [b] with [upper < 2^b], and what
    it returns is the first candidate strictly below [upper]: the call
    returns [v] exactly when one of the draws the fuel allows is the first
    accepted one and yields [v]. *)
Theorem randbelow_first_candidate (self : CFRand) (fuel : nat) (upper : Z)
    (w : World) :
  0 < upper →
  least_bits_lt upper (bit_length upper) ∧
  ∀ (v : Z) (w' : World),
    _randbelow self fuel upper w = Ok v w'
    ↔ ∃ n, (n < fuel)%nat ∧
           first_accepted self fuel (bit_length upper) upper n w v w'.
Proof.
  intros Hpos. split; [by apply bit_length_least|].
  intros v w'. rewrite randbelow_unfold by done. apply randbelow_loop_first.
Qed.

Lemma randbelow_first_candidate_witness :
  least_bits_lt 4 (bit_length 4) ∧
  ∀ (v : Z) (w' : World),
    _randbelow zero_seed 2 4 (constant_world xb7) = Ok v w'
    ↔ ∃ n, (n < 2)%nat ∧
           first_accepted zero_seed 2 (bit_length 4) 4 n (constant_world xb7) v w'.
Proof.
  apply (randbelow_first_candidate zero_seed 2 4 (constant_world xb7)). lia.
Defined.

(** C1 as the specification states it fails: with [upper = 4] the least
    [b] with [4 <= 2^b] is 2, but the code draws 3 bits.  From the byte
    [0x60] the code takes the candidate 3 and returns it, whereas a 2-bit
    draw yields 1. *)
Lemma randbelow_bit_size_counterexample :
  ¬ (∃ b : Z,
       least_bits_le 4 b ∧
       ∀ (v : Z) (w' : World),
         _randbelow zero_seed 1 4 (constant_world x60) = Ok v w'
         ↔ ∃ n, (n < 1)%nat ∧
                first_accepted zero_seed 1 b 4 n (constant_world x60) v w').
Proof.
  intros (b & (Hb0 & Hb1 & Hleast) & Hiff).
  assert (b = 2) as ->.
  { pose proof (Hleast 2 ltac:(lia) ltac:(simpl; lia)).
    destruct (Z.eq_dec b 0) as [->|]; [simpl in Hb1; lia|].
    destruct (Z.eq_dec b 1) as [->|]; [simpl in Hb1; lia|]. lia. }
  destruct (proj1 (Hiff 3 (advance 1 (constant_world x60))) eq_refl)
    as (n & Hn & Hacc & _).
  assert (n = 0%nat) as -> by lia.
  vm_compute in Hacc. discriminate.
Qed.

Lemma nth_draw_nonneg self fuel k n w v w' :
  nth_draw self fuel k n w = Ok v w' → 0 ≤ v.
Proof.
  revert w. induction n as [|n IH]; intros w; simpl.
  - apply randbits_nonneg.
  - unfold mbind, M_bind.
    destruct (_randbits self fuel k w) as [c w1| |]; try done. apply IH.
Qed.

Lemma randbelow_ok_range self fuel upper w v w' :
  _randbelow self fuel upper w = Ok v w' → 0 ≤ v < upper.
Proof.
  unfold _randbelow. destruct (Z.leb_spec upper 0) as [|Hpos]; [done|].
  intros (n & _ & Hacc & Hv & _)%randbelow_loop_first.
  split; [|done]. by apply nth_draw_nonneg in Hacc.
Qed.

Lemma randbelow_no_raise self fuel upper w e w' :
  0 < upper → _randbelow self fuel upper w ≠ Raise e w'.
Proof.
  intros Hpos. rewrite randbelow_unfold by done. apply randbelow_loop_no_raise.
Qed.

Lemma randbelow_returns self f fuel upper n w v w' :
  0 < upper →
  first_accepted self f (bit_length upper) upper n w v w' →
  (f ≤ fuel)%nat → (n < fuel)%nat →
  _randbelow self fuel upper w = Ok v w'.
Proof.
  intros Hpos Hacc Hf Hn. rewrite randbelow_unfold by done.
  apply randbelow_loop_first. exists n. split; [done|].
  exact (first_accepted_mono _ _ _ _ _ _ _ _ _ Hf Hacc).
Qed.

(** C3. For every [upper <= 0], zero and the negative numbers alike,
    [_randbelow(upper)] raises [ValueError] (the specification's
    DomainError) and leaves the entropy source as it found it.  For every
    [upper > 0] every value it returns lies in [[0, upper)], it raises
    nothing, and it does return as soon as the fuel reaches the first
    accepted candidate of the stream. *)
Theorem randbelow_range (self : CFRand) (fuel : nat) (upper : Z) (w : World) :
  (upper ≤ 0 →
     _randbelow self fuel upper w
     = Raise (ValueError "upper must be positive") w) ∧
  (0 < upper →
     (∀ v w', _randbelow self fuel upper w = Ok v w' → 0 ≤ v < upper) ∧
     (∀ e w', _randbelow self fuel upper w ≠ Raise e w') ∧
     (∀ f n v w',
        first_accepted self f (bit_length upper) upper n w v w' →
        (f ≤ fuel)%nat → (n < fuel)%nat →
        _randbelow self fuel upper w = Ok v w' ∧ 0 ≤ v < upper)).
Proof.
  split.
  - intros Hle. unfold _randbelow. by destruct (Z.leb_spec upper 0); [|lia].
  - intros Hpos. split; [|split].
    + intros v w'. apply randbelow_ok_range.
    + intros e w'. by apply randbelow_no_raise.
    + intros f n v w' Hacc Hf Hn.
      pose proof (randbelow_returns _ _ _ _ _ _ _ _ Hpos Hacc Hf Hn) as Hrun.
      split; [done|]. by eapply randbelow_ok_range.
Qed.

Lemma randbelow_range_witness :
  _randbelow zero_seed 3 (-7) stepping_world
  = Raise (ValueError "upper must be positive") stepping_world ∧
  _randbelow zero_seed 3 5 stepping_world = Ok 3 (advance 3 stepping_world) ∧
  0 ≤ 3 < 5.
Proof.
  split.
  - apply (proj1 (randbelow_range zero_seed 3 (-7) stepping_world)). lia.
  - apply (proj2 (proj2 (proj2 (randbelow_range zero_seed 3 5 stepping_world)
                                ltac:(lia))) 1%nat 2%nat).
    + split; [reflexivity|]. split; [reflexivity|].
      intros i Hi.
      destruct i as [|[|i]]; [by exists 7, (advance 1 stepping_world)
                             |by exists 7, (advance 2 stepping_world) | lia].
    + lia.
    + lia.
Defined.

(** ** [random] *)

(** C4. [random()] is [_randbits(53) / 2^53]: every value it returns is
    that quotient for the 53-bit draw it made, and lies in [[0, 1)], so it
    never reaches 1.  It raises nothing, and an instance with a 64-byte
    seed returns from a single block of entropy. *)
Theorem random_unit_interval (self : CFRand) (fuel : nat) (w : World) :
  (∀ (q : Q) (w' : World),
     random self fuel w = Ok q w' →
     ∃ value : Z,
       _randbits self fuel 53 w = Ok value w' ∧
       q = (inject_Z value / inject_Z (2 ^ 53))%Q ∧
       (0 <= q)%Q ∧ (q < 1)%Q ∧ ¬ (q == 1)%Q) ∧
  (∀ e w', random self fuel w ≠ Raise e w') ∧
  (length (_server_bytes self) = 64%nat → (1 ≤ fuel)%nat →
   ∃ (q : Q) (w' : World), random self fuel w = Ok q w').
Proof.
  unfold random, mbind, M_bind. split; [|split].
  - intros q w' Hrun.
    destruct (_randbits self fuel 53 w) as [value w1| |] eqn:Hbits; try done.
    inversion Hrun; subst q w1. exists value. split; [done|].
    split; [done|].
    apply randbits_range in Hbits as [Hlo Hhi]; [|lia].
    assert (Hpos : (0 < inject_Z (Z.shiftl 1 53))%Q) by done.
    assert (Hq0 : (0 <= inject_Z value / inject_Z (Z.shiftl 1 53))%Q).
    { apply Qle_shift_div_l; [done|]. rewrite Qmult_0_l.
      unfold Qle. cbn [Qnum Qden inject_Z]. lia. }
    assert (Hq1 : (inject_Z value / inject_Z (Z.shiftl 1 53) < 1)%Q).
    { apply Qlt_shift_div_r; [done|]. rewrite Qmult_1_l.
      change (Z.shiftl 1 53) with (2 ^ 53).
      unfold Qlt. cbn [Qnum Qden inject_Z]. lia. }
    split; [done|]. split; [done|].
    intros Heq. rewrite Heq in Hq1. by apply Qlt_irrefl in Hq1.
  - intros e w'.
    destruct (_randbits self fuel 53 w) as [value w1| |] eqn:Hbits; try done.
    by apply randbits_no_raise in Hbits.
  - intros Hseed Hfuel.
    destruct (randbits_eval self fuel 53 w Hseed ltac:(lia)) as (data & _ & Hbits).
    { by vm_compute. }
    rewrite Hbits. eauto.
Qed.

Lemma random_unit_interval_witness :
  ∃ (q : Q) (w' : World),
    random zero_seed 1 (constant_world xb7) = Ok q w' ∧ (0 <= q)%Q ∧ (q < 1)%Q.
Proof.
  destruct (random_unit_interval zero_seed 1 (constant_world xb7))
    as (Hval & _ & Hret).
  destruct (Hret eq_refl (le_n 1)) as (q & w' & Hrun).
  exists q, w'. split; [exact Hrun|].
  destruct (Hval q w' Hrun) as (_ & _ & _ & H0 & H1 & _). by split.
Defined.

(** ** [randrange] *)


(** [len(range(start, stop, step))] counts the members of the progression
    [start, start + step, ...] that come before [stop]. *)
Lemma range_len_spec start stop step i :
  step ≠ 0 → 0 ≤ i →
  i < range_len (mkRange start stop step)
  ↔ before_stop stop step (start + i * step).
Proof.
  intros Hstep Hi. unfold range_len, before_stop. simpl.
  destruct (Z.ltb_spec 0 step) as [Hpos|Hneg].
  - destruct (Z.leb_spec stop start) as [Hle|Hlt]; [nia|].
    pose proof (Z.div_mod (stop - start - 1) step ltac:(lia)) as Hdm.
    pose proof (Z.mod_pos_bound (stop - start - 1) step Hpos) as Hmod.
    set (q := (stop - start - 1) `div` step) in *.
    set (r := (stop - start - 1) `mod` step) in *.
    split.
    + intros Hiq. left. split; [done|]. nia.
    + intros [[_ Hb]|[? _]]; [|lia].
      destruct (Z_lt_le_dec i (q + 1)); [done|]. nia.
  - destruct (Z.leb_spec start stop) as [Hle|Hlt]; [nia|].
    assert (Hpos : 0 < - step) by lia.
    pose proof (Z.div_mod (start - stop - 1) (- step) ltac:(lia)) as Hdm.
    pose proof (Z.mod_pos_bound (start - stop - 1) (- step) Hpos) as Hmod.
    set (q := (start - stop - 1) `div` (- step)) in *.
    set (r := (start - stop - 1) `mod` (- step)) in *.
    split.
    + intros Hiq. right. split; [lia|]. nia.
    + intros [[? _]|[_ Hb]]; [lia|].
      destruct (Z_lt_le_dec i (q + 1)); [done|]. nia.
Qed.

Lemma range_getitem_ok rng index w :
  0 ≤ index < range_len rng →
  range_getitem rng index w = Ok (r_start rng + index * r_step rng) w.
Proof.
  intros [Hlo Hhi]. unfold range_getitem.
  destruct (Z.ltb_spec index 0); [lia|].
  destruct (Z.ltb_spec index 0); [lia|].
  by destruct (Z.leb_spec (range_len rng) index); [lia|].
Qed.

(** [randrange] once the step is known to be non-zero. *)
Lemma randrange_cases self maxsize fuel start stop step w start' stop' :
  (start', stop') = match stop with
                    | None => (0, start)
                    | Some stop => (start, stop)
                    end →
  step ≠ 0 →
  randrange self maxsize fuel start stop step w
  = if Z.of_N maxsize <? range_len (mkRange start' stop' step) then
      Raise (OverflowError "Python int too large to convert to C ssize_t") w
    else if range_len (mkRange start' stop' step) <=? 0 then
      Raise (ValueError "empty range for randrange()") w
    else
      (index ← _randbelow self fuel (range_len (mkRange start' stop' step));
       mret (start' + index * step)) w.
Proof.
  intros Hnorm Hstep. unfold randrange. rewrite <- Hnorm.
  destruct (Z.eqb_spec step 0); [done|].
  unfold py_range. destruct (Z.eqb_spec step 0); [done|].
  unfold mbind at 1, M_bind at 1. unfold mret at 1, M_ret at 1.
  unfold py_len_range. unfold mbind at 1, M_bind at 1.
  destruct (Z.ltb_spec (Z.of_N maxsize) (range_len (mkRange start' stop' step)));
    [done|].
  unfold mret at 1, M_ret at 1.
  destruct (Z.leb_spec (range_len (mkRange start' stop' step)) 0); [done|].
  unfold mbind, M_bind.
  destruct (_randbelow self fuel _ w) as [index w1| |] eqn:Hdraw; try done.
  apply randbelow_ok_range in Hdraw.
  by rewrite range_getitem_ok.
Qed.

Lemma randrange_run self maxsize fuel start stop step w start' stop' :
  (start', stop') = match stop with
                    | None => (0, start)
                    | Some stop => (start, stop)
                    end →
  step ≠ 0 → 0 < range_len (mkRange start' stop' step) →
  range_len (mkRange start' stop' step) ≤ Z.of_N maxsize →
  randrange self maxsize fuel start stop step w
  = (index ← _randbelow self fuel (range_len (mkRange start' stop' step));
     mret (start' + index * step)) w.
Proof.
  intros Hnorm Hstep Hcount Hfit.
  rewrite (randrange_cases _ _ _ _ _ _ _ _ _ Hnorm Hstep).
  destruct (Z.ltb_spec (Z.of_N maxsize) (range_len (mkRange start' stop' step)));
    [lia|].
  by destruct (Z.leb_spec (range_len (mkRange start' stop' step)) 0); [lia|].
Qed.

Lemma randrange_empty self maxsize fuel start stop step w start' stop' :
  (start', stop') = match stop with
                    | None => (0, start)
                    | Some stop => (start, stop)
                    end →
  step ≠ 0 → range_len (mkRange start' stop' step) ≤ 0 →
  randrange self maxsize fuel start stop step w
  = Raise (ValueError "empty range for randrange()") w.
Proof.
  intros Hnorm Hstep Hcount.
  rewrite (randrange_cases _ _ _ _ _ _ _ _ _ Hnorm Hstep).
  destruct (Z.ltb_spec (Z.of_N maxsize) (range_len (mkRange start' stop' step)));
    [lia|].
  by destruct (Z.leb_spec (range_len (mkRange start' stop' step)) 0); [|lia].
Qed.

Lemma randrange_zero_step self maxsize fuel start stop w :
  randrange self maxsize fuel start stop 0 w
  = Raise (ValueError "step must not be zero") w.
Proof. unfold randrange. by destruct stop. Qed.

(** A value that [randrange] returns is a member of the progression,
    picked by the index that [_randbelow(count)] returned. *)
Lemma randrange_ok self maxsize fuel start stop step w start' stop' v w' :
  (start', stop') = match stop with
                    | None => (0, start)
                    | Some stop => (start, stop)
                    end →
  randrange self maxsize fuel start stop step w = Ok v w' →
  step ≠ 0 ∧
  ∃ index, 0 ≤ index < range_len (mkRange start' stop' step) ∧
           v = start' + index * step ∧
           _randbelow self fuel (range_len (mkRange start' stop' step)) w
           = Ok index w'.
Proof.
  intros Hnorm Hrun.
  destruct (Z.eq_dec step 0) as [->|Hstep].
  { by rewrite randrange_zero_step in Hrun. }
  split; [done|].
  rewrite (randrange_cases _ _ _ _ _ _ _ _ _ Hnorm Hstep) in Hrun.
  destruct (Z.of_N maxsize <? _); [done|].
  destruct (_ <=? 0); [done|].
  unfold mbind, M_bind in Hrun.
  destruct (_randbelow self fuel _ w) as [index w1| |] eqn:Hdraw; try done.
  inversion Hrun; subst v w1. exists index.
  split; [by eapply randbelow_ok_range|done].
Qed.




(** ** [choice] *)

Lemma list_getitem_ok {A} (l : list A) index v w :
  0 ≤ index → l !! Z.to_nat index = Some v → list_getitem l index w = Ok v w.
Proof.
  intros Hlo Hv. unfold list_getitem.
  destruct (Z.ltb_spec index 0); [lia|].
  destruct (Z.ltb_spec index 0); [lia|]. by rewrite Hv.
Qed.

Lemma list_setitem_ok {A} (l : list A) index v w :
  0 ≤ index < Z.of_nat (length l) →
  list_setitem l index v w = Ok (<[Z.to_nat index := v]> l) w.
Proof.
  intros [Hlo Hhi]. unfold list_setitem.
  destruct (Z.ltb_spec index 0); [lia|].
  destruct (Z.ltb_spec index 0); [lia|].
  by destruct (Z.leb_spec (Z.of_nat (length l)) index); [lia|].
Qed.

Lemma choice_run {A} self fuel (seq : list A) w :
  seq ≠ [] →
  choice self fuel seq w
  = match _randbelow self fuel (Z.of_nat (length seq)) w with
    | Ok index w' =>
        match seq !! Z.to_nat index with
        | Some v => Ok v w'
        | None => OutOfFuel
        end
    | Raise e w' => Raise e w'
    | OutOfFuel => OutOfFuel
    end
  ∧ ∀ index w', _randbelow self fuel (Z.of_nat (length seq)) w = Ok index w' →
                is_Some (seq !! Z.to_nat index).
Proof.
  intros Hne.
  assert (Hdraw : ∀ index w',
    _randbelow self fuel (Z.of_nat (length seq)) w = Ok index w' →
    is_Some (seq !! Z.to_nat index)).
  { intros index w' [Hlo Hhi]%randbelow_ok_range.
    apply lookup_lt_is_Some. lia. }
  split; [|done].
  unfold choice. rewrite bool_decide_eq_false_2 by by destruct seq.
  unfold mbind, M_bind.
  destruct (_randbelow self fuel _ w) as [index w1| |] eqn:E; try done.
  destruct (Hdraw index w1 eq_refl) as [v Hv]. rewrite Hv.
  apply randbelow_ok_range in E. apply list_getitem_ok; [lia|done].
Qed.

(** C6. [choice] raises [IndexError] (the specification's
    EmptyInputError) on an empty sequence, without touching the entropy
    source.  On a non-empty sequence it returns [v] exactly when
    [_randbelow(len(seq))] returns an index holding [v], it runs out of
    fuel only when that draw does, and it raises nothing.  On a
    one-element sequence the only value it can return is that element. *)
Theorem choice_spec {A : Type} (self : CFRand) (fuel : nat) (seq : list A)
    (w : World) :
  (seq = [] →
     choice self fuel seq w
     = Raise (IndexError "Cannot choose from an empty sequence") w) ∧
  (seq ≠ [] →
     (∀ v w', choice self fuel seq w = Ok v w'
        ↔ ∃ index, _randbelow self fuel (Z.of_nat (length seq)) w = Ok index w'
                   ∧ seq !! Z.to_nat index = Some v) ∧
     (choice self fuel seq w = OutOfFuel
        ↔ _randbelow self fuel (Z.of_nat (length seq)) w = OutOfFuel) ∧
     (∀ e w', choice self fuel seq w ≠ Raise e w')) ∧
  (∀ a v w', seq = [a] → choice self fuel seq w = Ok v w' → v = a).
Proof.
  assert (Hgen : seq ≠ [] →
    (∀ v w', choice self fuel seq w = Ok v w'
       ↔ ∃ index, _randbelow self fuel (Z.of_nat (length seq)) w = Ok index w'
                  ∧ seq !! Z.to_nat index = Some v) ∧
    (choice self fuel seq w = OutOfFuel
       ↔ _randbelow self fuel (Z.of_nat (length seq)) w = OutOfFuel) ∧
    (∀ e w', choice self fuel seq w ≠ Raise e w')).
  { intros Hne. destruct (choice_run self fuel seq w Hne) as [-> Hsome].
    assert (Hlen : 0 < Z.of_nat (length seq)) by (destruct seq; simpl; [done|lia]).
    destruct (_randbelow self fuel _ w) as [index w1| |] eqn:E.
    - destruct (Hsome index w1 eq_refl) as [v0 Hv0]. rewrite Hv0.
      split; [|split; [done|done]].
      intros v w'. split.
      + intros [= <- <-]. by exists index.
      + intros (index' & [= <- <-] & Hv). by rewrite Hv0 in Hv; inversion Hv.
    - by apply randbelow_no_raise in E.
    - split; [|done]. intros v w'. split; [done|]. by intros (? & ? & _). }
  split; [|split].
  - by intros ->.
  - done.
  - intros a v w' -> Hrun.
    destruct Hgen as (Hiff & _); [done|].
    apply Hiff in Hrun as (index & Hdraw & Hv).
    apply randbelow_ok_range in Hdraw. simpl in Hdraw.
    assert (index = 0) as -> by lia. by inversion Hv.
Qed.

Lemma choice_spec_witness :
  choice zero_seed 1 ([] : list string) (constant_world x00)
  = Raise (IndexError "Cannot choose from an empty sequence")
          (constant_world x00) ∧
  choice zero_seed 1 ["a"%string] (constant_world x00)
  = Ok "a"%string (advance 1 (constant_world x00)) ∧
  choice zero_seed 1 ["a"; "b"; "c"]%string (constant_world x60)
  = Ok "b"%string (advance 1 (constant_world x60)).
Proof.
  split; [|split].
  - by apply (choice_spec zero_seed 1 ([] : list string) (constant_world x00)).
  - apply (proj1 (proj2 (choice_spec zero_seed 1 ["a"%string]
                           (constant_world x00)))); [done|].
    by exists 0.
  - apply (proj1 (proj2 (choice_spec zero_seed 1 ["a"; "b"; "c"]%string
                           (constant_world x60)))); [done|].
    by exists 1.
Defined.

(** ** [shuffle] *)

Lemma swap_Permutation {A} (x : list A) i j : swap x i j ≡ₚ x.
Proof.
  unfold swap.
  destruct (x !! i) as [xi|] eqn:Hi; [|done].
  destruct (x !! j) as [xj|] eqn:Hj; [|done].
  by apply Permutation_insert_swap.
Qed.

Lemma swap_length {A} (x : list A) i j : length (swap x i j) = length x.
Proof.
  unfold swap. destruct (x !! i), (x !! j); try done.
  by rewrite !length_insert.
Qed.

(** [range(i, 0, -1)] counts [i, i - 1, ..., 1]. *)
Lemma range_items_countdown (i : nat) :
  range_items (mkRange (Z.of_nat (S i)) 0 (-1))
  = Z.of_nat (S i) :: range_items (mkRange (Z.of_nat i) 0 (-1)).
Proof.
  assert (Hlen : ∀ n : nat, range_len (mkRange (Z.of_nat n) 0 (-1)) = Z.of_nat n).
  { intros n. unfold range_len. simpl r_step. simpl r_start. simpl r_stop.
    change (0 <? -1) with false. cbv iota beta.
    destruct (Z.leb_spec (Z.of_nat n) 0); [lia|].
    change (- -1) with 1. rewrite Z.div_1_r. lia. }
  unfold range_items. rewrite !Hlen, !Nat2Z.id.
  cbn [seq map r_start r_step]. apply (f_equal2 cons); [lia|].
  rewrite <- seq_shift, map_map. apply map_ext. intros j. lia.
Qed.

Lemma fisher_yates_unfold {A} (draw : Z → M Z) i (x : list A) :
  fisher_yates draw (S i) x
  = (j ← draw (Z.of_nat (S i) + 1);
     fisher_yates draw i (swap x (S i) (Z.to_nat j))).
Proof. reflexivity. Qed.

Lemma shuffle_body_run {A} self fuel (i : nat) (x : list A) w :
  (i < length x)%nat →
  shuffle_body self fuel (Z.of_nat i) x w
  = match _randbelow self fuel (Z.of_nat i + 1) w with
    | Ok j w' => Ok (swap x i (Z.to_nat j)) w'
    | Raise e w' => Raise e w'
    | OutOfFuel => OutOfFuel
    end.
Proof.
  intros Hi. unfold shuffle_body, mbind, M_bind.
  destruct (_randbelow self fuel _ w) as [j w1| |] eqn:Hdraw; try done.
  apply randbelow_ok_range in Hdraw.
  destruct (lookup_lt_is_Some_2 x i Hi) as [xi Hxi].
  destruct (lookup_lt_is_Some_2 x (Z.to_nat j) ltac:(lia)) as [xj Hxj].
  rewrite (list_getitem_ok x j xj) by (lia || done).
  rewrite (list_getitem_ok x (Z.of_nat i) xi) by (lia || by rewrite Nat2Z.id).
  rewrite list_setitem_ok by lia.
  rewrite list_setitem_ok by (rewrite length_insert; lia).
  unfold swap. by rewrite Nat2Z.id, Hxi, Hxj.
Qed.

Lemma for_each_fisher_yates {A} self fuel (i : nat) (x : list A) w :
  (i < length x)%nat →
  for_each (range_items (mkRange (Z.of_nat i) 0 (-1))) (shuffle_body self fuel) x w
  = fisher_yates (_randbelow self fuel) i x w.
Proof.
  revert x w. induction i as [|i IH]; intros x w Hi; [done|].
  rewrite range_items_countdown, fisher_yates_unfold.
  cbn [for_each]. unfold mbind, M_bind.
  rewrite shuffle_body_run by done.
  destruct (_randbelow self fuel _ w) as [j w1| |]; try done.
  apply IH. rewrite swap_length. lia.
Qed.

Lemma fisher_yates_Permutation {A} (draw : Z → M Z) i (x : list A) w x' w' :
  fisher_yates draw i x w = Ok x' w' → x' ≡ₚ x.
Proof.
  revert x w. induction i as [|i IH]; intros x w.
  - by intros [= <- <-].
  - rewrite fisher_yates_unfold. unfold mbind, M_bind.
    destruct (draw _ w) as [j w1| |]; try done.
    intros Hrun%IH. by rewrite Hrun, swap_Permutation.
Qed.

Lemma fisher_yates_no_raise {A} self fuel i (x : list A) w e w' :
  fisher_yates (_randbelow self fuel) i x w ≠ Raise e w'.
Proof.
  revert x w. induction i as [|i IH]; intros x w; [done|].
  rewrite fisher_yates_unfold. unfold mbind, M_bind.
  destruct (_randbelow self fuel _ w) as [j w1| |] eqn:Hdraw;
    [apply IH| |done].
  apply randbelow_no_raise in Hdraw; [done|lia].
Qed.

Lemma shuffle_run {A} self fuel (x : list A) w :
  shuffle self fuel x w
  = fisher_yates (_randbelow self fuel) (length x - 1) x w.
Proof.
  unfold shuffle.
  destruct (Z.ltb_spec (Z.of_nat (length x)) 2) as [Hshort|Hlong].
  - assert (length x - 1 = 0)%nat as -> by lia. done.
  - unfold py_range. change (-1 =? 0) with false. cbv iota.
    unfold mbind at 1, M_bind at 1. unfold mret at 1, M_ret at 1.
    replace (Z.of_nat (length x) - 1) with (Z.of_nat (length x - 1)) by lia.
    apply for_each_fisher_yates. lia.
Qed.

(** C7. [shuffle] is Fisher–Yates: for every list, fuel and entropy
    source it has the outcome of the loop that runs [i] from [len - 1]
    down to 1, draws [j = _randbelow(i + 1)] and exchanges the elements at
    [i] and [j].  On a list of fewer than two elements it returns with the
    list and the entropy source unchanged. *)
Theorem shuffle_fisher_yates {A : Type} (self : CFRand) (fuel : nat)
    (x : list A) (w : World) :
  shuffle self fuel x w
  = fisher_yates (_randbelow self fuel) (length x - 1) x w ∧
  ((length x < 2)%nat → shuffle self fuel x w = Ok x w).
Proof.
  split; [apply shuffle_run|].
  intros Hshort. unfold shuffle.
  by destruct (Z.ltb_spec (Z.of_nat (length x)) 2); [|lia].
Qed.

Lemma shuffle_fisher_yates_witness :
  shuffle zero_seed 1 [7] stepping_world = Ok [7] stepping_world.
Proof.
  apply (shuffle_fisher_yates zero_seed 1 [7] stepping_world). simpl. lia.
Defined.

(** C9. For every list [x], every fuel and every entropy source, hence
    whatever the draws of [_randbelow] turn out to be, the list that
    [shuffle(x)] leaves behind is a permutation of the original: the same
    elements with the same multiplicities, and the same length.  [shuffle]
    raises nothing. *)
Theorem shuffle_permutation {A : Type} (self : CFRand) (fuel : nat)
    (x : list A) (w : World) :
  (∀ x' w', shuffle self fuel x w = Ok x' w' →
            x' ≡ₚ x ∧ length x' = length x) ∧
  (∀ e w', shuffle self fuel x w ≠ Raise e w').
Proof.
  rewrite shuffle_run. split.
  - intros x' w' Hperm%fisher_yates_Permutation.
    split; [done|]. by rewrite Hperm.
  - intros e w'. apply fisher_yates_no_raise.
Qed.

Lemma shuffle_permutation_witness :
  [2; 3; 1] ≡ₚ [1; 2; 3] ∧ length [2; 3; 1] = length [1; 2; 3].
Proof.
  apply (proj1 (shuffle_permutation zero_seed 1 [1; 2; 3] (constant_world x00))
           [2; 3; 1] (advance 2 (constant_world x00))).
  reflexivity.
Defined.

(** ** Construction *)

(** [bytes.fromhex] accepts only hexadecimal digits and ASCII whitespace. *)
Lemma fromhex_chars s bs :
  fromhex s = Some bs →
  Forall (λ c, is_space c = true ∨ is_Some (hex_digit_value c))
         (list_ascii_of_string s).
Proof.
  remember (String.length s) as n eqn:Hn.
  revert s bs Hn. induction (lt_wf n) as [n _ IH]. intros s bs Hn.
  destruct s as [|c rest]; [constructor|]. cbn [fromhex list_ascii_of_string].
  destruct (is_space c) eqn:Hsp.
  - intros Hrest. constructor; [by left|].
    eapply (IH (String.length rest)); [|done|done]. simpl in Hn. lia.
  - destruct (hex_digit_value c) as [top|] eqn:Htop; [|done].
    destruct rest as [|c' rest']; [done|].
    destruct (hex_digit_value c') as [bot|] eqn:Hbot; [|done].
    destruct (Byte.of_N _); [|done].
    destruct (fromhex rest') as [bs'|] eqn:Hrest; [|done].
    intros _. constructor; [right; by rewrite Htop|].
    cbn [list_ascii_of_string]. constructor; [right; by rewrite Hbot|].
    eapply (IH (String.length rest')); [|done|done]. simpl in Hn. lia.
Qed.

Lemma fromhex_bad_char s c :
  c ∈ list_ascii_of_string s →
  is_space c = false → hex_digit_value c = None →
  fromhex s = None.
Proof.
  intros Hin Hsp Hhex.
  destruct (fromhex s) as [bs|] eqn:E; [|done].
  apply fromhex_chars in E. rewrite Forall_forall in E.
  destruct (E c Hin) as [Hs|[v Hv]]; congruence.
Qed.

Lemma fetch_seed_rejects urlopen json_loads self status body payload :
  urlopen (_url self) (_timeout self) = inr (status, body) →
  json_loads body = inr (PyDict payload) →
  payload !! "hash_sha3_512"%string = None
  ∨ (∃ hex, payload !! "hash_sha3_512"%string = Some (PyStr hex) ∧
            (fromhex hex = None
             ∨ ∃ bs, fromhex hex = Some bs ∧ length bs ≠ 64%nat)) →
  ∃ msg, _fetch_seed urlopen json_loads self = inl (RuntimeError msg).
Proof.
  intros Hopen Hjson Hbad. unfold _fetch_seed. rewrite Hopen.
  destruct (status =? 200); simpl; [|eauto].
  rewrite Hjson.
  destruct Hbad as [->|(hex & -> & Hhex)]; simpl; [eauto|].
  destruct (String.eqb hex "") eqn:Hempty; simpl; [eauto|].
  destruct Hhex as [->|(bs & -> & Hlen)]; [eauto|].
  rewrite bool_decide_eq_true_2 by done. eauto.
Qed.

(** A field that holds a truthy value other than a string makes
    [bytes.fromhex] raise [TypeError], which [_fetch_seed] lets through. *)
Lemma fetch_seed_non_string urlopen json_loads self body payload v :
  urlopen (_url self) (_timeout self) = inr (200, body) →
  json_loads body = inr (PyDict payload) →
  payload !! "hash_sha3_512"%string = Some v →
  truthy v = true → (∀ s, v ≠ PyStr s) →
  _fetch_seed urlopen json_loads self
  = inl (TypeError ("fromhex() argument must be str, not " +:+ py_type_name v)).
Proof.
  intros Hopen Hjson Hfield Htrue Hstr. unfold _fetch_seed.
  rewrite Hopen. simpl. rewrite Hjson, Hfield. simpl. rewrite Htrue. simpl.
  destruct v as [| | | |str| |]; try done. by destruct (Hstr str).
Qed.

(** A body that parses to something other than an object has no [get]:
    [AttributeError] leaves [_fetch_seed]. *)
Lemma fetch_seed_non_object urlopen json_loads self body v :
  urlopen (_url self) (_timeout self) = inr (200, body) →
  json_loads body = inr v →
  (∀ d, v ≠ PyDict d) →
  _fetch_seed urlopen json_loads self
  = inl (AttributeError ("'" +:+ py_type_name v
                         +:+ "' object has no attribute 'get'")).
Proof.
  intros Hopen Hjson Hobj. unfold _fetch_seed.
  rewrite Hopen. simpl. rewrite Hjson.
  destruct v as [| | | | | |d]; try done. by destruct (Hobj d).
Qed.

(** An instance that [CFRand(...)] does create holds a 64-byte seed. *)
Lemma CFRand_init_seed_length environ urlopen json_loads url timeout self :
  CFRand_init environ urlopen json_loads url timeout = inr self →
  length (_server_bytes self) = 64%nat.
Proof.
  unfold CFRand_init.
  match goal with |- context [match ?u with Some _ => _ | None => _ end = inr _] =>
    destruct u as [u'|] end; [|done].
  destruct (String.eqb u' ""); [done|].
  unfold _fetch_seed. cbn [_url _timeout].
  destruct (urlopen u' timeout) as [|[status body]]; [done|].
  destruct (negb (status =? 200)); [done|].
  destruct (json_loads body) as [|[]]; try done.
  destruct (negb (truthy _)); [done|].
  destruct (default PyNone _); try done.
  destruct (fromhex s) as [bs|]; [|done].
  destruct (decide (length bs = 64%nat)) as [Hlen|Hlen].
  - rewrite bool_decide_eq_false_2 by (by intros ?). by intros [= <-].
  - by rewrite bool_decide_eq_true_2.
Qed.

(** The checks [_fetch_seed] does make: once the constructor has a
    non-empty URL, the worker has answered and the body has parsed to an
    object, construction raises [RuntimeError] and yields no instance
    whenever the object has no [hash_sha3_512] field, the field is a
    string that [bytes.fromhex] rejects (in particular any string with a
    character that is neither a hexadecimal digit nor ASCII whitespace),
    or the decoded digest is not exactly 64 bytes long. *)
Theorem construction_rejects_bad_seed (environ : gmap string string)
    (urlopen : string → Z → exn + (Z * string))
    (json_loads : string → exn + pyobj)
    (url : option string) (timeout : Z) (u : string) (status : Z)
    (body : string) (payload : gmap string pyobj) :
  (match url with
   | Some s => if String.eqb s "" then environ !! "CFRAND_URL"%string else Some s
   | None => environ !! "CFRAND_URL"%string
   end) = Some u →
  u ≠ ""%string →
  urlopen u timeout = inr (status, body) →
  json_loads body = inr (PyDict payload) →
  payload !! "hash_sha3_512"%string = None
  ∨ (∃ hex, payload !! "hash_sha3_512"%string = Some (PyStr hex) ∧
            (fromhex hex = None
             ∨ (∃ c, c ∈ list_ascii_of_string hex ∧
                     is_space c = false ∧ hex_digit_value c = None)
             ∨ ∃ bs, fromhex hex = Some bs ∧ length bs ≠ 64%nat)) →
  (∃ msg, CFRand_init environ urlopen json_loads url timeout
          = inl (RuntimeError msg)) ∧
  ∀ self, CFRand_init environ urlopen json_loads url timeout ≠ inr self.
Proof.
  intros Hurl Hne Hopen Hjson Hbad.
  assert (Hraise : ∃ msg, CFRand_init environ urlopen json_loads url timeout
                          = inl (RuntimeError msg)).
  { unfold CFRand_init. rewrite Hurl.
    destruct (String.eqb_spec u ""); [done|].
    eapply fetch_seed_rejects; [exact Hopen|exact Hjson|].
    destruct Hbad as [|(hex & Hfield & Hhex)]; [by left|right].
    exists hex. split; [done|].
    destruct Hhex as [|[(c & Hin & Hsp & Hdig)|]]; [by left| |by right].
    left. by eapply fromhex_bad_char. }
  split; [done|]. intros self Hself.
  destruct Hraise as [msg Hraise]. congruence.
Qed.

Lemma construction_rejects_bad_seed_witness :
  (∃ msg,
     CFRand_init ∅ (λ _ _, inr (200, "{}"%string))
       (λ _, inr (PyDict {["hash_sha3_512"%string := PyStr "zz"]}))
       (Some "http://worker"%string) 10
     = inl (RuntimeError msg)) ∧
  ∀ self,
    CFRand_init ∅ (λ _ _, inr (200, "{}"%string))
      (λ _, inr (PyDict {["hash_sha3_512"%string := PyStr "zz"]}))
      (Some "http://worker"%string) 10
    ≠ inr self.
Proof.
  apply (construction_rejects_bad_seed ∅ (λ _ _, inr (200, "{}"%string))
           (λ _, inr (PyDict {["hash_sha3_512"%string := PyStr "zz"]}))
           (Some "http://worker"%string) 10 "http://worker"%string 200
           "{}"%string {["hash_sha3_512"%string := PyStr "zz"]}).
  - reflexivity.
  - discriminate.
  - reflexivity.
  - reflexivity.
  - right. exists "zz"%string. split; [apply lookup_singleton_eq|].
    left. reflexivity.
Defined.

(** C8 (where the code departs from it).  A worker that answers with
    status 200 and a [hash_sha3_512] field holding the number 12345 makes
    [bytes.fromhex] raise [TypeError], which the [except ValueError]
    clause around it does not catch: construction ends with [TypeError]
    instead of the [RuntimeError] the neighbouring checks raise.  A body
    that parses to a list ends it with [AttributeError] in the same
    way. *)
Theorem construction_non_string_digest (environ : gmap string string)
    (body : string) (timeout : Z) :
  CFRand_init environ (λ _ _, inr (200, body))
    (λ _, inr (PyDict {["hash_sha3_512"%string := PyInt 12345]}))
    (Some "http://worker"%string) timeout
  = inl (TypeError "fromhex() argument must be str, not int") ∧
  CFRand_init environ (λ _ _, inr (200, body)) (λ _, inr (PyList []))
    (Some "http://worker"%string) timeout
  = inl (AttributeError "'list' object has no attribute 'get'").
Proof. split; vm_compute; reflexivity. Qed.

(** Digests of 63 and of 65 bytes are turned down, one of 64 bytes is
    taken. *)
Example init_63_bytes :
  CFRand_init ∅ (λ _ _, inr (200, ""%string))
    (λ _, inr (PyDict {["hash_sha3_512"%string := PyStr "000000000000000000000000000000000000000000000000000000000000000000000000000000000000000000000000000000000000000000000000000000"]}))
    (Some "http://worker"%string) 10
  = inl (RuntimeError "Worker hash is not 512 bits").
Proof. vm_compute. reflexivity. Qed.

Example init_65_bytes :
  CFRand_init ∅ (λ _ _, inr (200, ""%string))
    (λ _, inr (PyDict {["hash_sha3_512"%string := PyStr "0000000000000000000000000000000000000000000000000000000000000000000000000000000000000000000000000000000000000000000000000000000000"]}))
    (Some "http://worker"%string) 10
  = inl (RuntimeError "Worker hash is not 512 bits").
Proof. vm_compute. reflexivity. Qed.

Example init_64_bytes :
  CFRand_init ∅ (λ _ _, inr (200, ""%string))
    (λ _, inr (PyDict {["hash_sha3_512"%string := PyStr "abababababababababababababababababababababababababababababababababababababababababababababababababababababababababababababababab"]}))
    (Some "http://worker"%string) 10
  = inr (mkCFRand "http://worker" 10 (replicate 64 xab)).
Proof. vm_compute. reflexivity. Qed.

(** A three-element shuffle: from byte [0x60] the draws are [j = 1] for
    [i = 2] and [j = 1] for [i = 1]. *)
Example shuffle_three :
  shuffle zero_seed 1 [1; 2; 3] (constant_world x60)
  = Ok [1; 3; 2] (advance 2 (constant_world x60)).
Proof. reflexivity. Qed.

(** * Further properties of the generator *)

(** ** The byte stream for an arbitrary seed *)

Lemma mixed_stream_app self e c j j' :
  mixed_stream self e c (j + j')
  = mixed_stream self e c j ++ mixed_stream self e (c + j) j'.
Proof.
  revert c. induction j as [|j IH]; intros c; simpl.
  - by rewrite Nat.add_0_r.
  - rewrite IH, <- app_assoc. do 3 f_equal. lia.
Qed.

(** What the loop returns is [output] followed by whole blocks. *)
Lemma random_bytes_loop_stream self L fuel output w r w' :
  _random_bytes_loop self L fuel output w = Ok r w' →
  ∃ j, r = output ++ mixed_stream self (entropy w) (urandom_calls w) j
       ∧ w' = advance j w.
Proof.
  revert output w.
  induction fuel as [|fuel IH]; intros output w;
    rewrite random_bytes_loop_unfold;
    destruct (Z.of_nat (length output) <? L); try done.
  - intros [= <- <-]. exists 0%nat. simpl. by rewrite app_nil_r, advance_0.
  - unfold mbind, M_bind. rewrite xor_block_eval.
    intros (j & -> & ->)%IH. exists (S j). simpl.
    rewrite advance_advance, <- app_assoc.
    by replace (urandom_calls w + 1)%nat with (S (urandom_calls w)) by lia.
  - intros [= <- <-]. exists 0%nat. simpl. by rewrite app_nil_r, advance_0.
Qed.

Lemma random_bytes_stream self fuel L w data w' :
  _random_bytes self fuel L w = Ok data w' →
  ∃ j, data = take (Z.to_nat L)
                   (mixed_stream self (entropy w) (urandom_calls w) j)
       ∧ (Z.to_nat L ≤ length (mixed_stream self (entropy w) (urandom_calls w) j))%nat
       ∧ w' = advance j w.
Proof.
  unfold _random_bytes. destruct (Z.leb_spec L 0).
  - intros [= <- <-]. exists 0%nat. rewrite advance_0.
    replace (Z.to_nat L) with 0%nat by lia. done.
  - unfold mbind, M_bind.
    destruct (_random_bytes_loop self L fuel [] w) as [out w1| |] eqn:E; try done.
    intros [= <- <-].
    pose proof (random_bytes_loop_post _ _ _ _ _ _ _ E) as Hlen.
    apply random_bytes_loop_stream in E as (j & -> & ->).
    exists j. simpl in *. split; [done|]. split; [lia|done].
Qed.

Lemma random_bytes_prefix self fuel1 fuel2 n m w d1 w1 d2 w2 :
  n ≤ m →
  _random_bytes self fuel1 n w = Ok d1 w1 →
  _random_bytes self fuel2 m w = Ok d2 w2 →
  d1 = take (Z.to_nat n) d2.
Proof.
  intros Hnm (j1 & -> & Hl1 & _)%random_bytes_stream
             (j2 & -> & Hl2 & _)%random_bytes_stream.
  set (e := entropy w). set (c := urandom_calls w).
  rewrite take_take.
  replace (Z.to_nat n `min` Z.to_nat m)%nat with (Z.to_nat n) by lia.
  destruct (Nat.le_ge_cases j1 j2) as [Hle|Hle].
  - replace j2 with (j1 + (j2 - j1))%nat by lia.
    rewrite mixed_stream_app. by rewrite take_app_le.
  - replace j1 with (j2 + (j1 - j2))%nat by lia.
    rewrite mixed_stream_app. rewrite take_app_le; [done|].
    fold e c in Hl2. lia.
Qed.

(** X1. An earlier, shorter request reads the same bytes: when
    [_random_bytes(n)] and [_random_bytes(m)] with [n <= m] both return
    from the same state of the entropy source, the first result is the
    first [n] bytes of the second.  This holds for every seed. *)
Theorem random_bytes_prefix_consistent (self : CFRand) (fuel1 fuel2 : nat)
    (n m : Z) (w : World) (d1 d2 : list byte) (w1 w2 : World) :
  n ≤ m →
  _random_bytes self fuel1 n w = Ok d1 w1 →
  _random_bytes self fuel2 m w = Ok d2 w2 →
  d1 = take (Z.to_nat n) d2 ∧ Z.of_nat (length d1) = Z.max 0 n.
Proof.
  intros Hnm H1 H2. split; [by eapply random_bytes_prefix|].
  destruct (Z.leb_spec n 0).
  - unfold _random_bytes in H1. destruct (Z.leb_spec n 0); [|lia].
    inversion H1. simpl. lia.
  - assert (Hn : 0 ≤ n) by lia.
    rewrite (random_bytes_length_any _ _ _ _ _ _ Hn H1). lia.
Qed.

Lemma random_bytes_prefix_consistent_witness :
  [xff; xff; xff] = take (Z.to_nat 3) (replicate 70 xff) ∧
  Z.of_nat (length [xff; xff; xff]) = Z.max 0 3.
Proof.
  apply (random_bytes_prefix_consistent zero_seed 1 2 3 70 (constant_world xff)
           [xff; xff; xff] (replicate 70 xff)
           (advance 1 (constant_world xff)) (advance 2 (constant_world xff)));
    [lia | reflexivity | reflexivity].
Defined.

Lemma random_bytes_length_max self fuel L w data w' :
  _random_bytes self fuel L w = Ok data w' →
  Z.of_nat (length data) = Z.max 0 L.
Proof.
  intros Hrun. destruct (Z.leb_spec L 0) as [Hle|Hpos].
  - unfold _random_bytes in Hrun. destruct (Z.leb_spec L 0); [|lia].
    inversion Hrun. simpl. lia.
  - assert (Hn : 0 ≤ L) by lia.
    rewrite (random_bytes_length_any _ _ _ _ _ _ Hn Hrun). lia.
Qed.

Lemma int_from_bytes_big_app a b :
  int_from_bytes_big (a ++ b)
  = int_from_bytes_big a * 256 ^ Z.of_nat (length b) + int_from_bytes_big b.
Proof.
  induction b as [|x b IH] using rev_ind.
  - rewrite app_nil_r. simpl. unfold int_from_bytes_big at 3. simpl. lia.
  - rewrite app_assoc, !int_from_bytes_big_snoc, IH, length_app. simpl.
    replace (Z.of_nat (length b + 1)) with (Z.of_nat (length b) + 1) by lia.
    rewrite Z.pow_add_r by lia. lia.
Qed.

(** X2. The bits of a shorter draw are the leading bits of a longer one:
    when [_randbits(j)] and [_randbits(k)] with [j <= k] both return from
    the same state of the entropy source, the first value is the second
    shifted right by [k - j].  For [k <= 0] the call returns 0 and leaves
    the entropy source untouched. *)
Theorem randbits_leading_bits (self : CFRand) (fuel1 fuel2 : nat) (j k : Z)
    (w : World) :
  (k ≤ 0 → _randbits self fuel2 k w = Ok 0 w) ∧
  (j ≤ k →
   ∀ vj w1 vk w2,
     _randbits self fuel1 j w = Ok vj w1 →
     _randbits self fuel2 k w = Ok vk w2 →
     vj = Z.shiftr vk (k - j)).
Proof.
  split.
  { intros Hk. rewrite randbits_run.
    assert (Hbl : (k + 7) `div` 8 ≤ 0).
    { assert ((k + 7) `div` 8 < 1); [|lia]. apply Z.div_lt_upper_bound; lia. }
    unfold _random_bytes. destruct (Z.leb_spec ((k + 7) `div` 8) 0); [|lia].
    unfold mret, M_ret. by rewrite Z.shiftr_0_l. }
  intros Hjk vj w1 vk w2 Hj Hk.
  pose proof (randbits_nonneg _ _ _ _ _ _ Hk) as Hvk0.
  assert (Hvkrange : 0 ≤ k → vk < 2 ^ k).
  { intros H0. by apply (randbits_range _ _ _ _ _ _ H0 Hk). }
  rewrite randbits_run in Hj, Hk.
  pose proof (byte_len_bounds j) as Hexj.
  pose proof (byte_len_bounds k) as Hexk.
  set (blj := (j + 7) `div` 8) in *. set (blk := (k + 7) `div` 8) in *.
  assert (Hbl : blj ≤ blk) by (apply Z.div_le_mono; lia).
  destruct (_random_bytes self fuel1 blj w) as [d1 w1'| |] eqn:E1; try done.
  destruct (_random_bytes self fuel2 blk w) as [d2 w2'| |] eqn:E2; try done.
  inversion Hj; subst vj w1'. inversion Hk; subst vk w2'. clear Hj Hk.
  pose proof (random_bytes_prefix _ _ _ _ _ _ _ _ _ _ Hbl E1 E2) as Hpre.
  pose proof (random_bytes_length_max _ _ _ _ _ _ E1) as Hl1.
  pose proof (random_bytes_length_max _ _ _ _ _ _ E2) as Hl2.
  destruct (Z.leb_spec blj 0) as [Hj0|Hjpos].
  - assert (d1 = []) as -> by (apply nil_length_inv; lia).
    change (int_from_bytes_big []) with 0. rewrite Z.shiftr_0_l.
    destruct (Z.leb_spec blk 0) as [Hk0|Hkpos].
    + assert (d2 = []) as -> by (apply nil_length_inv; lia).
      change (int_from_bytes_big []) with 0. by rewrite !Z.shiftr_0_l.
    + rewrite (Z.shiftr_div_pow2 _ (k - j)) by lia.
      symmetry. apply Z.div_small. split; [done|].
      assert (2 ^ k ≤ 2 ^ (k - j)) by (apply Z.pow_le_mono_r; lia).
      specialize (Hvkrange ltac:(lia)). lia.
  - rewrite <- (take_drop (Z.to_nat blj) d2), <- Hpre.
    set (rest := drop (Z.to_nat blj) d2).
    assert (Hrest : Z.of_nat (length rest) = blk - blj).
    { unfold rest. rewrite length_drop. lia. }
    rewrite int_from_bytes_big_app, Hrest.
    pose proof (int_from_bytes_big_range rest) as Hr. rewrite Hrest in Hr.
    pose proof (int_from_bytes_big_range d1) as Hd1.
    rewrite Z.shiftr_shiftr by lia.
    rewrite !Z.shiftr_div_pow2 by lia.
    replace (blk * 8 - k + (k - j)) with (8 * (blk - blj) + (blj * 8 - j)) by lia.
    rewrite Z.pow_add_r by lia.
    replace (256 ^ (blk - blj)) with (2 ^ (8 * (blk - blj)))
      by (rewrite Z.pow_mul_r by lia; done).
    assert (0 < 2 ^ (8 * (blk - blj))) by (apply Z.pow_pos_nonneg; lia).
    assert (0 < 2 ^ (blj * 8 - j)) by (apply Z.pow_pos_nonneg; lia).
    rewrite <- Z.div_div by lia.
    rewrite Z.div_add_l by lia.
    rewrite (Z.div_small (int_from_bytes_big rest)) by lia.
    by rewrite Z.add_0_r.
Qed.

Lemma randbits_leading_bits_witness :
  _randbits zero_seed 0 (-4) (constant_world xb7) = Ok 0 (constant_world xb7) ∧
  5 = Z.shiftr 2939 (12 - 3).
Proof.
  split.
  - apply (randbits_leading_bits zero_seed 0 0 (-4) (-4)). lia.
  - apply (proj2 (randbits_leading_bits zero_seed 1 1 3 12 (constant_world xb7))
             ltac:(lia) 5 (advance 1 (constant_world xb7))
             2939 (advance 1 (constant_world xb7)));
      reflexivity.
Defined.

Lemma random_bytes_loop_empty_seed self L fuel output w :
  _server_bytes self = [] →
  Z.of_nat (length output) < L →
  _random_bytes_loop self L fuel output w = OutOfFuel.
Proof.
  intros Hseed. revert output w.
  induction fuel as [|fuel IH]; intros output w Hlt;
    rewrite random_bytes_loop_unfold;
    destruct (Z.ltb_spec (Z.of_nat (length output)) L); try lia; [done|].
  unfold mbind, M_bind. rewrite xor_block_eval.
  unfold mixed_block. rewrite Hseed, zip_with_nil_r, app_nil_r. by apply IH.
Qed.

Lemma random_bytes_loop_terminates self L fuel output w :
  _server_bytes self ≠ [] →
  (Z.to_nat (L - Z.of_nat (length output)) ≤ fuel)%nat →
  ∃ r w', _random_bytes_loop self L fuel output w = Ok r w'.
Proof.
  intros Hseed. revert output w.
  induction fuel as [|fuel IH]; intros output w Hfuel;
    rewrite random_bytes_loop_unfold;
    destruct (Z.ltb_spec (Z.of_nat (length output)) L); try lia;
    [unfold mret, M_ret; eauto| |unfold mret, M_ret; eauto].
  unfold mbind, M_bind. rewrite xor_block_eval. apply IH.
  rewrite length_app. unfold mixed_block.
  rewrite length_zip_with, length_map, length_seq.
  destruct (_server_bytes self); [done|]. simpl length. lia.
Qed.

(** X3. [_random_bytes(length)] can return exactly when [length <= 0] or
    the seed is non-empty: with a non-empty seed [length] rounds of the
    loop always suffice, while on the empty seed an instance holds before
    [_fetch_seed] has run every block is empty and the loop never ends. *)
Theorem random_bytes_returns_iff (self : CFRand) (length : Z) (w : World) :
  (∃ fuel data w', _random_bytes self fuel length w = Ok data w')
  ↔ length ≤ 0 ∨ _server_bytes self ≠ [].
Proof.
  split.
  - intros (fuel & data & w' & Hrun).
    destruct (Z.leb_spec length 0) as [|Hpos]; [by left|right].
    intros Hseed. unfold _random_bytes in Hrun.
    destruct (Z.leb_spec length 0); [lia|].
    unfold mbind, M_bind in Hrun.
    by rewrite random_bytes_loop_empty_seed in Hrun.
  - intros Hcase. unfold _random_bytes.
    destruct (Z.leb_spec length 0) as [|Hpos].
    { exists 0%nat. unfold mret, M_ret. eauto. }
    destruct Hcase as [|Hseed]; [lia|].
    exists (Z.to_nat length). unfold mbind, M_bind.
    destruct (random_bytes_loop_terminates self length (Z.to_nat length) [] w Hseed)
      as (r & w' & ->); [simpl; lia|].
    unfold mret, M_ret. eauto.
Qed.

Lemma random_bytes_returns_iff_witness :
  ∃ fuel data w', _random_bytes zero_seed fuel 5 (constant_world x00) = Ok data w'.
Proof.
  apply (proj2 (random_bytes_returns_iff zero_seed 5 (constant_world x00))).
  right. discriminate.
Defined.

(** ** [_xor_block] *)

Lemma byte_xor_cancel a b : byte_xor (byte_xor a b) b = a.
Proof.
  assert (H : Byte.to_N (byte_xor (byte_xor a b) b) = Byte.to_N a).
  { rewrite !byte_xor_to_N, N.lxor_assoc, N.lxor_nilpotent. apply N.lxor_0_r. }
  pose proof (Byte.of_to_N (byte_xor (byte_xor a b) b)) as H1.
  pose proof (Byte.of_to_N a) as H2. rewrite H in H1. congruence.
Qed.

Lemma zip_with_byte_xor_cancel (e s : list byte) :
  zip_with byte_xor (zip_with byte_xor e s) s = take (length s) e.
Proof.
  revert s. induction e as [|a e IH]; intros [|b s]; simpl; try done.
  by rewrite byte_xor_cancel, IH.
Qed.

(** X4. Every call of [_xor_block] makes one call of [os.urandom], and
    its block has as many bytes as the shorter of the 64-byte buffer and
    the seed.  XOR-ing the block with the seed once more gives back the
    entropy bytes it was made from, so two buffers that differ within the
    seed's length never give the same block. *)
Theorem xor_block_invertible (self : CFRand) (w : World) :
  ∃ block : list byte,
    _xor_block self w = Ok block (advance 1 w) ∧
    length block = (64 `min` length (_server_bytes self))%nat ∧
    zip_with byte_xor block (_server_bytes self)
    = take (length (_server_bytes self))
           (map (entropy w (urandom_calls w)) (seq 0 64)).
Proof.
  exists (mixed_block self (entropy w) (urandom_calls w)).
  split; [apply xor_block_eval|]. unfold mixed_block. split.
  - by rewrite length_zip_with, length_map, length_seq.
  - apply zip_with_byte_xor_cancel.
Qed.

(** ** Every value in range can be drawn *)

Lemma byte_of_Z_value z : Z.of_N (Byte.to_N (byte_of_Z z)) = z `mod` 256.
Proof.
  unfold byte_of_Z.
  pose proof (Z.mod_pos_bound z 256 ltac:(lia)) as Hm.
  destruct (Byte.of_N _) as [b|] eqn:E.
  - apply Byte.to_of_N in E. rewrite E. lia.
  - apply Byte.of_N_None_iff in E. lia.
Qed.

Lemma to_bytes_big_length n v : length (to_bytes_big n v) = n.
Proof.
  revert v. induction n as [|n IH]; intros v; simpl; [done|].
  rewrite length_app, IH. simpl. lia.
Qed.

Lemma int_from_to_bytes_big n v :
  int_from_bytes_big (to_bytes_big n v) = v `mod` 256 ^ Z.of_nat n.
Proof.
  revert v. induction n as [|n IH]; intros v.
  - simpl. by rewrite Z.mod_1_r.
  - cbn [to_bytes_big].
    rewrite int_from_bytes_big_snoc, IH, byte_of_Z_value.
    replace (Z.of_nat (S n)) with (1 + Z.of_nat n) by lia.
    rewrite Z.pow_add_r by lia. change (256 ^ 1) with 256.
    assert (0 < 256 ^ Z.of_nat n) by (apply Z.pow_pos_nonneg; lia).
    rewrite Z.rem_mul_r by lia. lia.
Qed.

Lemma mixed_block_entropy_for self target c :
  length (_server_bytes self) = 64%nat →
  mixed_block self (entropy_for self target) c
  = map (λ i, default x00 (target !! i)) (seq (c * 64) 64).
Proof.
  intros Hseed. unfold mixed_block. apply list_eq. intros i.
  rewrite lookup_zip_with.
  change (map ?f ?l) with (f <$> l). rewrite !list_lookup_fmap.
  destruct (decide (i < 64)%nat) as [Hi|Hi].
  - rewrite !lookup_seq_lt by done. simpl.
    destruct (lookup_lt_is_Some_2 (_server_bytes self) i ltac:(lia)) as [b Hb].
    rewrite Hb. simpl. unfold entropy_for. rewrite Hb. simpl.
    by rewrite byte_xor_cancel.
  - by rewrite !lookup_seq_ge by lia.
Qed.

Lemma mixed_stream_entropy_for self target c n :
  length (_server_bytes self) = 64%nat →
  mixed_stream self (entropy_for self target) c n
  = map (λ i, default x00 (target !! i)) (seq (c * 64) (64 * n)).
Proof.
  intros Hseed. revert c. induction n as [|n IH]; intros c.
  - by rewrite Nat.mul_0_r.
  - cbn [mixed_stream]. rewrite mixed_block_entropy_for, IH by done.
    replace (S c * 64)%nat with (c * 64 + 64)%nat by lia.
    rewrite <- map_app, <- seq_app. do 2 f_equal. lia.
Qed.

Lemma take_mixed_stream_entropy_for self target n :
  length (_server_bytes self) = 64%nat →
  (length target ≤ 64 * n)%nat →
  take (length target) (mixed_stream self (entropy_for self target) 0 n) = target.
Proof.
  intros Hseed Hlen. rewrite mixed_stream_entropy_for by done.
  apply list_eq. intros i.
  destruct (decide (i < length target)%nat) as [Hi|Hi].
  - rewrite lookup_take_lt by done.
    change (map ?f ?l) with (f <$> l). rewrite list_lookup_fmap.
    rewrite lookup_seq_lt by lia. simpl.
    by destruct (lookup_lt_is_Some_2 target i Hi) as [b ->].
  - rewrite lookup_take_ge by lia. symmetry. apply lookup_ge_None. lia.
Qed.

Lemma randbits_world_bits self fuel k v :
  length (_server_bytes self) = 64%nat →
  1 ≤ k →
  0 ≤ v < 2 ^ k →
  (blocks_needed ((k + 7) `div` 8) ≤ fuel)%nat →
  _randbits self fuel k (world_bits self k v)
  = Ok v (advance (blocks_needed ((k + 7) `div` 8)) (world_bits self k v)).
Proof.
  intros Hseed Hk1 [Hv0 Hv] Hfuel.
  pose proof (byte_len_bounds k) as Hex.
  set (bl := (k + 7) `div` 8) in *.
  assert (Hbl : 0 < bl) by lia.
  rewrite randbits_run. fold bl.
  rewrite random_bytes_eval by done.
  unfold world_bits. fold bl. cbn [entropy urandom_calls].
  set (target := to_bytes_big (Z.to_nat bl) (Z.shiftl v (bl * 8 - k))).
  assert (Htl : length target = Z.to_nat bl) by apply to_bytes_big_length.
  rewrite <- Htl at 1.
  rewrite take_mixed_stream_entropy_for; [|done|].
  2:{ pose proof (blocks_needed_enough bl ltac:(lia)). lia. }
  unfold target. rewrite int_from_to_bytes_big, Z2Nat.id by lia.
  rewrite Z.shiftl_mul_pow2 by lia.
  assert (H2 : 0 < 2 ^ (bl * 8 - k)) by (apply Z.pow_pos_nonneg; lia).
  rewrite Z.mod_small.
  - rewrite Z.shiftr_div_pow2 by lia. by rewrite Z.div_mul by lia.
  - split; [nia|].
    replace (256 ^ bl) with (2 ^ k * 2 ^ (bl * 8 - k)).
    + apply Z.mul_lt_mono_pos_r; lia.
    + rewrite <- Z.pow_add_r by lia.
      replace (k + (bl * 8 - k)) with (8 * bl) by lia.
      by rewrite Z.pow_mul_r by lia.
Qed.

Lemma randbits_world_for self fuel upper v :
  length (_server_bytes self) = 64%nat →
  0 ≤ v < upper →
  (blocks_needed ((bit_length upper + 7) `div` 8) ≤ fuel)%nat →
  _randbits self fuel (bit_length upper) (world_for self upper v)
  = Ok v (advance (blocks_needed ((bit_length upper + 7) `div` 8))
                  (world_for self upper v)).
Proof.
  intros Hseed [Hv0 Hv] Hfuel.
  destruct (bit_length_least upper ltac:(lia)) as (Hk0 & Hup & _).
  assert (Hk1 : 1 ≤ bit_length upper).
  { destruct (Z.eq_dec (bit_length upper) 0) as [Hz|]; [|lia].
    rewrite Hz in Hup. simpl in Hup. lia. }
  apply randbits_world_bits; try done. lia.
Qed.

Lemma randbelow_world_for self fuel upper v :
  length (_server_bytes self) = 64%nat →
  0 ≤ v < upper →
  (blocks_needed ((bit_length upper + 7) `div` 8) ≤ fuel)%nat →
  (1 ≤ fuel)%nat →
  _randbelow self fuel upper (world_for self upper v)
  = Ok v (advance (blocks_needed ((bit_length upper + 7) `div` 8))
                  (world_for self upper v)).
Proof.
  intros Hseed Hv Hfuel H1.
  rewrite randbelow_unfold by lia.
  destruct fuel as [|n]; [lia|]. cbn [_randbelow_loop].
  unfold mbind, M_bind. rewrite randbits_world_for by done.
  by destruct (Z.ltb_spec v upper); [|lia].
Qed.

(** X5. No value of the range is out of reach: for an instance with a
    64-byte seed, every [upper > 0] and every [v] in [[0, upper)] there is
    an entropy source on which [_randbelow(upper)] returns [v] from its
    first draw, having made [ceil(byte_len / 64)] calls of [os.urandom]. *)
Theorem randbelow_reachable (self : CFRand) (fuel : nat) (upper v : Z) :
  length (_server_bytes self) = 64%nat →
  0 ≤ v < upper →
  (1 ≤ fuel)%nat →
  (blocks_needed ((bit_length upper + 7) `div` 8) ≤ fuel)%nat →
  ∃ w : World,
    urandom_calls w = 0%nat ∧
    _randbelow self fuel upper w
    = Ok v (advance (blocks_needed ((bit_length upper + 7) `div` 8)) w).
Proof.
  intros Hseed Hv H1 Hfuel. exists (world_for self upper v).
  split; [done|]. by apply randbelow_world_for.
Qed.

Lemma randbelow_reachable_witness :
  ∃ w : World,
    urandom_calls w = 0%nat ∧
    _randbelow ones_seed 1 1000 w
    = Ok 999 (advance (blocks_needed ((bit_length 1000 + 7) `div` 8)) w).
Proof.
  apply (randbelow_reachable ones_seed 1 1000 999);
    [reflexivity | lia | lia | vm_compute; lia].
Defined.

(** ** [randint] and the bounds of [randrange] *)

Lemma range_len_unit_step a s : range_len (mkRange a s 1) = Z.max 0 (s - a).
Proof.
  unfold range_len. simpl.
  destruct (Z.leb_spec s a); [lia|]. rewrite Z.div_1_r. lia.
Qed.

Lemma randint_run self maxsize fuel a b w :
  a ≤ b → b - a + 1 ≤ Z.of_N maxsize →
  randint self maxsize fuel a b w
  = (index ← _randbelow self fuel (b - a + 1); mret (a + index)) w.
Proof.
  intros Hab Hfit. unfold randint.
  rewrite (randrange_run self maxsize fuel a (Some (b + 1)) 1 w a (b + 1) eq_refl)
    by (rewrite ?range_len_unit_step; lia).
  rewrite range_len_unit_step.
  replace (Z.max 0 (b + 1 - a)) with (b - a + 1) by lia.
  unfold mbind, M_bind.
  destruct (_randbelow self fuel (b - a + 1) w); try done.
  unfold mret, M_ret. f_equal. lia.
Qed.

(** X6. [randint(a, b)] raises [ValueError] when [b < a], leaving the
    entropy source untouched, and every value it returns lies in
    [[a, b]], both ends included.  When [a <= b] and the [b - a + 1]
    integers of the range do not outnumber [sys.maxsize], it is [a] plus a
    draw of [_randbelow(b - a + 1)] and raises nothing; when they do,
    [len()] raises [OverflowError] and nothing is drawn. *)
Theorem randint_spec (self : CFRand) (maxsize : N) (fuel : nat) (a b : Z)
    (w : World) :
  (b < a →
     randint self maxsize fuel a b w
     = Raise (ValueError "empty range for randrange()") w) ∧
  (∀ v w', randint self maxsize fuel a b w = Ok v w' → a ≤ v ≤ b) ∧
  (a ≤ b → b - a + 1 ≤ Z.of_N maxsize →
     randint self maxsize fuel a b w
     = (index ← _randbelow self fuel (b - a + 1); mret (a + index)) w ∧
     (∀ e w', randint self maxsize fuel a b w ≠ Raise e w')) ∧
  (Z.of_N maxsize < b - a + 1 →
     randint self maxsize fuel a b w
     = Raise (OverflowError "Python int too large to convert to C ssize_t") w).
Proof.
  split; [|split; [|split]].
  - intros Hba. unfold randint.
    apply (randrange_empty self maxsize fuel a (Some (b + 1)) 1 w a (b + 1) eq_refl);
      [lia|]. rewrite range_len_unit_step. lia.
  - intros v w' Hrun. unfold randint in Hrun.
    destruct (randrange_ok self maxsize fuel a (Some (b + 1)) 1 w a (b + 1) v w'
                eq_refl Hrun) as (_ & index & Hindex & -> & _).
    rewrite range_len_unit_step in Hindex. lia.
  - intros Hab Hfit. rewrite randint_run by done. split; [done|].
    unfold mbind, M_bind. intros e w'.
    destruct (_randbelow self fuel (b - a + 1) w) as [index w1| |] eqn:Hdraw;
      try done.
    apply randbelow_no_raise in Hdraw; [done|lia].
  - intros Hbig. unfold randint.
    rewrite (randrange_cases self maxsize fuel a (Some (b + 1)) 1 w a (b + 1) eq_refl)
      by lia.
    rewrite range_len_unit_step.
    by destruct (Z.ltb_spec (Z.of_N maxsize) (Z.max 0 (b + 1 - a))); [|lia].
Qed.

Lemma randint_spec_witness :
  randint zero_seed 2147483647 1 6 1 (constant_world xb7)
  = Raise (ValueError "empty range for randrange()") (constant_world xb7) ∧
  1 ≤ 6 ≤ 6 ∧
  randint zero_seed 2147483647 1 0 2147483647 (constant_world xb7)
  = Raise (OverflowError "Python int too large to convert to C ssize_t")
          (constant_world xb7).
Proof.
  split; [|split].
  - apply (randint_spec zero_seed 2147483647 1 6 1 (constant_world xb7)). lia.
  - apply (proj1 (proj2 (randint_spec zero_seed 2147483647 1 1 6
                           (constant_world xb7)))
             6 (advance 1 (constant_world xb7))).
    reflexivity.
  - apply (randint_spec zero_seed 2147483647 1 0 2147483647 (constant_world xb7)).
    lia.
Defined.

(** X7. Both ends of [randint(a, b)] can come out, and so can everything
    between them: for an instance with a 64-byte seed, a range of at most
    [sys.maxsize] integers and [a <= v <= b] there is an entropy source on
    which [randint(a, b)] returns [v]. *)
Theorem randint_reachable (self : CFRand) (maxsize : N) (fuel : nat)
    (a b v : Z) :
  length (_server_bytes self) = 64%nat →
  a ≤ v ≤ b →
  b - a + 1 ≤ Z.of_N maxsize →
  (1 ≤ fuel)%nat →
  (blocks_needed ((bit_length (b - a + 1) + 7) `div` 8) ≤ fuel)%nat →
  ∃ w w', urandom_calls w = 0%nat ∧ randint self maxsize fuel a b w = Ok v w'.
Proof.
  intros Hseed Hv Hfit H1 Hfuel.
  exists (world_for self (b - a + 1) (v - a)). eexists. split; [done|].
  rewrite randint_run by lia. unfold mbind, M_bind.
  rewrite randbelow_world_for by (done || lia).
  unfold mret, M_ret. f_equal. lia.
Qed.

Lemma randint_reachable_witness :
  (∃ w w', urandom_calls w = 0%nat ∧
           randint ones_seed 2147483647 1 1 100 w = Ok 1 w') ∧
  (∃ w w', urandom_calls w = 0%nat ∧
           randint ones_seed 2147483647 1 1 100 w = Ok 100 w').
Proof.
  split.
  - apply (randint_reachable ones_seed 2147483647 1 1 100 1);
      [reflexivity | lia | lia | lia | vm_compute; lia].
  - apply (randint_reachable ones_seed 2147483647 1 1 100 100);
      [reflexivity | lia | lia | lia | vm_compute; lia].
Defined.

(** X8. A value returned by [randrange] lies on the progression and
    inside the half-open range: for a positive step it is at least the
    start, below the stop and congruent to the start modulo the step; for
    a negative step it is at most the start and above the stop.  With a
    single argument, [randrange(n)] returns values in [[0, n)] and raises
    [ValueError] when [n <= 0]. *)
Theorem randrange_value_bounds (self : CFRand) (maxsize : N) (fuel : nat)
    (start : Z) (stop : option Z) (step : Z) (w : World) (start' stop' : Z) :
  (start', stop') = match stop with
                    | None => (0, start)
                    | Some stop => (start, stop)
                    end →
  (∀ v w', randrange self maxsize fuel start stop step w = Ok v w' →
     (v - start') `mod` step = 0 ∧
     ((0 < step ∧ start' ≤ v < stop') ∨ (step < 0 ∧ stop' < v ≤ start'))) ∧
  (∀ n v w', randrange self maxsize fuel n None 1 w = Ok v w' → 0 ≤ v < n) ∧
  (∀ n, n ≤ 0 →
     randrange self maxsize fuel n None 1 w
     = Raise (ValueError "empty range for randrange()") w).
Proof.
  intros Hnorm.
  assert (Hgen : ∀ start0 stop0 step0 a b v w',
    (a, b) = match stop0 with
             | None => (0, start0)
             | Some s => (start0, s)
             end →
    randrange self maxsize fuel start0 stop0 step0 w = Ok v w' →
    (v - a) `mod` step0 = 0 ∧
    ((0 < step0 ∧ a ≤ v < b) ∨ (step0 < 0 ∧ b < v ≤ a))).
  { intros start0 stop0 step0 a b v w' Hn Hrun.
    destruct (randrange_ok _ _ _ _ _ _ _ _ _ _ _ Hn Hrun)
      as (Hstep & index & [Hi0 Hi1] & -> & _).
    apply range_len_spec in Hi1; [|done|done].
    split.
    - replace (a + index * step0 - a) with (index * step0) by lia.
      apply Z.mod_mul. done.
    - destruct Hi1 as [[Hs Hb]|[Hs Hb]]; [left|right]; split; try done; nia. }
  split; [|split].
  - intros v w'. by apply Hgen.
  - intros n v w' Hrun.
    destruct (Hgen n None 1 0 n v w' eq_refl Hrun) as (_ & [[_ ?]|[? _]]); lia.
  - intros n Hn.
    apply (randrange_empty self maxsize fuel n None 1 w 0 n eq_refl); [lia|].
    rewrite range_len_unit_step. lia.
Qed.

Lemma randrange_value_bounds_witness :
  (70 - 10) `mod` 5 = 0 ∧
  ((0 < 5 ∧ 10 ≤ 70 < 100) ∨ (5 < 0 ∧ 100 < 70 ≤ 10)).
Proof.
  apply (proj1 (randrange_value_bounds zero_seed 2147483647 1 10 (Some 100) 5
                  (constant_world x60) 10 100 eq_refl)
           70 (advance 1 (constant_world x60))).
  reflexivity.
Defined.

(** X21. [randrange] raises [OverflowError] exactly when the step is not
    zero and the progression has more than [sys.maxsize] members, which
    is more than [len()] can report; the entropy source is then left
    untouched. *)
Theorem randrange_overflow (self : CFRand) (maxsize : N) (fuel : nat)
    (start : Z) (stop : option Z) (step : Z) (w : World) (start' stop' : Z) :
  (start', stop') = match stop with
                    | None => (0, start)
                    | Some stop => (start, stop)
                    end →
  (step ≠ 0 → Z.of_N maxsize < range_len (mkRange start' stop' step) →
     randrange self maxsize fuel start stop step w
     = Raise (OverflowError "Python int too large to convert to C ssize_t") w) ∧
  ((∃ msg w', randrange self maxsize fuel start stop step w
              = Raise (OverflowError msg) w')
     → step ≠ 0 ∧ Z.of_N maxsize < range_len (mkRange start' stop' step)).
Proof.
  intros Hnorm. split.
  - intros Hstep Hbig.
    rewrite (randrange_cases _ _ _ _ _ _ _ _ _ Hnorm Hstep).
    by destruct (Z.ltb_spec (Z.of_N maxsize)
                            (range_len (mkRange start' stop' step))); [|lia].
  - intros (msg & w' & Hraise).
    destruct (Z.eq_dec step 0) as [->|Hstep].
    { by rewrite randrange_zero_step in Hraise. }
    split; [done|].
    rewrite (randrange_cases _ _ _ _ _ _ _ _ _ Hnorm Hstep) in Hraise.
    destruct (Z.ltb_spec (Z.of_N maxsize)
                         (range_len (mkRange start' stop' step))); [done|].
    destruct (Z.leb_spec (range_len (mkRange start' stop' step)) 0) as [|Hpos];
      [done|].
    unfold mbind, M_bind in Hraise.
    destruct (_randbelow self fuel _ w) as [index w1| |] eqn:Hdraw; try done.
    by apply randbelow_no_raise in Hdraw.
Qed.

Lemma randrange_overflow_witness :
  randrange zero_seed 9223372036854775807 1 (2 ^ 63) None 1 (constant_world x00)
  = Raise (OverflowError "Python int too large to convert to C ssize_t")
          (constant_world x00).
Proof.
  apply (proj1 (randrange_overflow zero_seed 9223372036854775807 1 (2 ^ 63) None 1
                  (constant_world x00) 0 (2 ^ 63) eq_refl)); [lia|].
  vm_compute. reflexivity.
Defined.

(** ** [choice]: membership and reach *)

(** X9. Whatever [choice] returns is an element of the sequence, and for
    an instance with a 64-byte seed every position of a non-empty
    sequence can be chosen: there is an entropy source on which [choice]
    returns the element stored there. *)
Theorem choice_member_reachable {A : Type} (self : CFRand) (fuel : nat)
    (seq : list A) :
  (∀ w v w', choice self fuel seq w = Ok v w' → v ∈ seq) ∧
  (length (_server_bytes self) = 64%nat →
   (1 ≤ fuel)%nat →
   (blocks_needed ((bit_length (Z.of_nat (length seq)) + 7) `div` 8) ≤ fuel)%nat →
   ∀ (i : nat) (v : A), seq !! i = Some v →
     ∃ w w', urandom_calls w = 0%nat ∧ choice self fuel seq w = Ok v w').
Proof.
  split.
  - intros w v w' Hrun.
    destruct seq as [|a seq]; [done|].
    destruct (choice_run self fuel (a :: seq) w ltac:(done)) as [Heq Hsome].
    rewrite Heq in Hrun.
    destruct (_randbelow self fuel _ w) as [index w1| |]; try done.
    destruct (Hsome index w1 eq_refl) as [v0 Hv0]. rewrite Hv0 in Hrun.
    inversion Hrun; subst v0 w1. by eapply list_elem_of_lookup_2.
  - intros Hseed H1 Hfuel i v Hi.
    pose proof (lookup_lt_Some _ _ _ Hi) as Hlt.
    exists (world_for self (Z.of_nat (length seq)) (Z.of_nat i)). eexists.
    split; [done|].
    destruct (choice_run self fuel seq (world_for self (Z.of_nat (length seq))
                                                  (Z.of_nat i)))
      as [-> _]; [by intros ->|].
    rewrite randbelow_world_for by (done || lia).
    by rewrite Nat2Z.id, Hi.
Qed.

Lemma choice_member_reachable_witness :
  ∃ w w', urandom_calls w = 0%nat ∧
          choice ones_seed 1 ["a"; "b"; "c"]%string w = Ok "c"%string w'.
Proof.
  apply (proj2 (choice_member_reachable ones_seed 1 ["a"; "b"; "c"]%string)
           eq_refl (le_n 1) ltac:(vm_compute; lia) 2%nat "c"%string eq_refl).
Defined.

(** ** The constructor *)

Lemma CFRand_init_unfold environ urlopen json_loads url timeout :
  CFRand_init environ urlopen json_loads url timeout
  = match effective_url environ url with
    | None => inl (RuntimeError "CFRAND_URL is not set; add it to .env")
    | Some u =>
        if String.eqb u "" then
          inl (RuntimeError "CFRAND_URL is not set; add it to .env")
        else _fetch_seed urlopen json_loads (mkCFRand u timeout [])
    end.
Proof. reflexivity. Qed.

Lemma fetch_seed_success urlopen json_loads self self' :
  _fetch_seed urlopen json_loads self = inr self'
  ↔ ∃ body payload hex,
      urlopen (_url self) (_timeout self) = inr (200, body) ∧
      json_loads body = inr (PyDict payload) ∧
      payload !! "hash_sha3_512"%string = Some (PyStr hex) ∧
      fromhex hex = Some (_server_bytes self') ∧
      length (_server_bytes self') = 64%nat ∧
      _url self' = _url self ∧ _timeout self' = _timeout self.
Proof.
  unfold _fetch_seed. split.
  - destruct (urlopen _ _) as [|[status body]] eqn:Hopen; [done|].
    destruct (Z.eqb_spec status 200) as [->|]; [|done]. simpl.
    destruct (json_loads body) as [|[]] eqn:Hjson; try done.
    destruct (d !! "hash_sha3_512"%string) as [v|] eqn:Hfield; [|done]. simpl.
    destruct (negb (truthy v)); [done|].
    destruct v; try done.
    destruct (fromhex s) as [bs|] eqn:Hhex; [|done].
    destruct (decide (length bs = 64%nat)) as [Hlen|Hlen].
    + rewrite bool_decide_eq_false_2 by (by intros ?). intros [= <-].
      by exists body, d, s.
    + by rewrite bool_decide_eq_true_2.
  - intros (body & payload & hex & -> & -> & Hfield & Hhex & Hlen & Hu & Ht).
    simpl. rewrite Hfield. simpl.
    destruct (String.eqb_spec hex "") as [->|].
    { simpl in Hhex. inversion Hhex as [Hnil]. by rewrite <- Hnil in Hlen. }
    simpl. rewrite Hhex.
    rewrite bool_decide_eq_false_2 by (by intros ?).
    destruct self'. simpl in *. by subst.
Qed.

(** X10. [CFRand(url, timeout)] yields an instance exactly when a
    non-empty URL is settled, the worker answers it with status 200, the
    body parses to an object whose [hash_sha3_512] field is a string, and
    [bytes.fromhex] decodes that string to exactly 64 bytes.  The instance
    then holds that URL, the given timeout and the decoded bytes as its
    seed, so every instance there is has a 64-byte seed. *)
Theorem init_success_iff (environ : gmap string string)
    (urlopen : string → Z → exn + (Z * string))
    (json_loads : string → exn + pyobj)
    (url : option string) (timeout : Z) (self : CFRand) :
  CFRand_init environ urlopen json_loads url timeout = inr self
  ↔ ∃ body payload hex,
      effective_url environ url = Some (_url self) ∧
      _url self ≠ ""%string ∧
      _timeout self = timeout ∧
      urlopen (_url self) timeout = inr (200, body) ∧
      json_loads body = inr (PyDict payload) ∧
      payload !! "hash_sha3_512"%string = Some (PyStr hex) ∧
      fromhex hex = Some (_server_bytes self) ∧
      length (_server_bytes self) = 64%nat.
Proof.
  rewrite CFRand_init_unfold. split.
  - destruct (effective_url environ url) as [u|]; [|done].
    destruct (String.eqb_spec u ""); [done|].
    intros (body & payload & hex & Hopen & Hjson & Hfield & Hhex & Hlen & Hu & Ht)
      %fetch_seed_success.
    simpl in *. exists body, payload, hex. rewrite Hu, Ht. done.
  - intros (body & payload & hex & -> & Hne & Ht & Hopen & Hjson & Hfield
            & Hhex & Hlen).
    destruct (String.eqb_spec (_url self) ""); [done|].
    apply fetch_seed_success. exists body, payload, hex. simpl. by subst.
Qed.

Lemma init_success_iff_witness :
  CFRand_init ∅ (λ _ _, inr (200, "{}"%string))
    (λ _, inr (PyDict {["hash_sha3_512"%string
                        := PyStr (hex_of_bytes (replicate 64 xab))]}))
    (Some "http://worker"%string) 10
  = inr (mkCFRand "http://worker" 10 (replicate 64 xab)).
Proof.
  apply (proj2 (init_success_iff ∅ (λ _ _, inr (200, "{}"%string))
                  (λ _, inr (PyDict {["hash_sha3_512"%string
                                      := PyStr (hex_of_bytes (replicate 64 xab))]}))
                  (Some "http://worker"%string) 10
                  (mkCFRand "http://worker" 10 (replicate 64 xab)))).
  exists "{}"%string,
         {["hash_sha3_512"%string := PyStr (hex_of_bytes (replicate 64 xab))]},
         (hex_of_bytes (replicate 64 xab)).
  split; [reflexivity|]. split; [discriminate|]. split; [reflexivity|].
  split; [reflexivity|]. split; [reflexivity|].
  split; [apply lookup_singleton_eq|]. split; reflexivity.
Defined.

(** ** Hexadecimal digests *)

Lemma hex_char_facts n :
  (n < 16)%N →
  hex_digit_value (hex_char n) = Some n ∧ is_space (hex_char n) = false.
Proof.
  intros Hn.
  assert (Hall : forallb (λ m,
            match hex_digit_value (hex_char m) with
            | Some v => N.eqb v m && negb (is_space (hex_char m))
            | None => false
            end) (map N.of_nat (seq 0 16)) = true) by (vm_compute; reflexivity).
  rewrite forallb_forall in Hall.
  assert (Hin : In n (map N.of_nat (seq 0 16))).
  { apply in_map_iff. exists (N.to_nat n). split; [lia|]. apply in_seq. lia. }
  specialize (Hall n Hin). revert Hall.
  destruct (hex_digit_value (hex_char n)) as [v|]; [|done].
  intros [Hv Hs]%andb_prop. apply N.eqb_eq in Hv as ->.
  split; [done|]. by destruct (is_space (hex_char n)).
Qed.

Lemma fromhex_hex_of_bytes bs : fromhex (hex_of_bytes bs) = Some bs.
Proof.
  induction bs as [|b bs IH]; [done|].
  pose proof (Byte.to_N_bounded b) as Hb.
  assert (Hhi : (Byte.to_N b / 16 < 16)%N)
    by (apply N.Div0.div_lt_upper_bound; lia).
  assert (Hlo : (Byte.to_N b mod 16 < 16)%N) by (apply N.mod_lt; lia).
  destruct (hex_char_facts _ Hhi) as [Hv1 Hs1].
  destruct (hex_char_facts _ Hlo) as [Hv2 _].
  cbn [hex_of_bytes fromhex]. rewrite Hs1, Hv1, Hv2, IH.
  replace (Byte.to_N b / 16 * 16 + Byte.to_N b mod 16)%N with (Byte.to_N b).
  - by rewrite Byte.of_to_N.
  - pose proof (N.div_mod (Byte.to_N b) 16 ltac:(lia)). lia.
Qed.

Lemma space_not_hex c : is_space c = true → is_hex_digit c = false.
Proof.
  unfold is_space, is_hex_digit, hex_digit_value.
  set (n := N_of_ascii c).
  destruct (N.leb_spec 9 n), (N.leb_spec n 13), (N.eqb_spec n 32),
    (N.leb_spec 48 n), (N.leb_spec n 57), (N.leb_spec 97 n), (N.leb_spec n 102),
    (N.leb_spec 65 n), (N.leb_spec n 70); simpl; try done; lia.
Qed.

Lemma fromhex_digit_count s bs :
  fromhex s = Some bs → hex_digit_count s = (2 * length bs)%nat.
Proof.
  remember (String.length s) as n eqn:Hn.
  revert s bs Hn. induction (lt_wf n) as [n _ IH]. intros s bs Hn.
  destruct s as [|c rest]; [by intros [= <-]|]. cbn [fromhex hex_digit_count].
  destruct (is_space c) eqn:Hsp.
  - rewrite (space_not_hex c Hsp). intros Hrest.
    eapply (IH (String.length rest)); [|done|done]. simpl in Hn. lia.
  - unfold is_hex_digit.
    destruct (hex_digit_value c) as [top|] eqn:Htop; [|done].
    destruct rest as [|c' rest']; [done|]. cbn [hex_digit_count].
    unfold is_hex_digit.
    destruct (hex_digit_value c') as [bot|] eqn:Hbot; [|done].
    destruct (Byte.of_N _); [|done].
    destruct (fromhex rest') as [bs'|] eqn:Hrest; [|done].
    intros [= <-]. simpl length.
    rewrite (IH (String.length rest') ltac:(simpl in Hn; lia) rest' bs' eq_refl Hrest).
    lia.
Qed.

Lemma hex_digit_count_all s :
  Forall (λ c, is_hex_digit c = true) (list_ascii_of_string s) →
  hex_digit_count s = String.length s.
Proof.
  induction s as [|c s IH]; [done|]. simpl.
  intros [Hc Hs]%Forall_cons. rewrite Hc. by rewrite IH.
Qed.

(** X11. Decoding undoes lowercase hexadecimal encoding,
    [bytes.fromhex(bs.hex()) == bs], so once the URL is settled and the
    worker answers with status 200, every 64-byte digest sent as its hex
    string is accepted and becomes the seed of the instance. *)
Theorem init_accepts_hex_digest (environ : gmap string string)
    (urlopen : string → Z → exn + (Z * string))
    (json_loads : string → exn + pyobj)
    (url : option string) (timeout : Z) (u body : string)
    (payload : gmap string pyobj) (seed : list byte) :
  fromhex (hex_of_bytes seed) = Some seed ∧
  (effective_url environ url = Some u →
   u ≠ ""%string →
   urlopen u timeout = inr (200, body) →
   json_loads body = inr (PyDict payload) →
   payload !! "hash_sha3_512"%string = Some (PyStr (hex_of_bytes seed)) →
   length seed = 64%nat →
   CFRand_init environ urlopen json_loads url timeout
   = inr (mkCFRand u timeout seed)).
Proof.
  split; [apply fromhex_hex_of_bytes|].
  intros Hurl Hne Hopen Hjson Hfield Hlen.
  rewrite CFRand_init_unfold, Hurl.
  destruct (String.eqb_spec u ""); [done|].
  apply fetch_seed_success. exists body, payload, (hex_of_bytes seed).
  simpl. by rewrite fromhex_hex_of_bytes.
Qed.

Lemma init_accepts_hex_digest_witness :
  CFRand_init ∅ (λ _ _, inr (200, "{}"%string))
    (λ _, inr (PyDict {["hash_sha3_512"%string
                        := PyStr (hex_of_bytes (replicate 64 x5c))]}))
    (Some "http://worker"%string) 3
  = inr (mkCFRand "http://worker" 3 (replicate 64 x5c)).
Proof.
  apply (proj2 (init_accepts_hex_digest ∅ (λ _ _, inr (200, "{}"%string))
                  (λ _, inr (PyDict {["hash_sha3_512"%string
                                      := PyStr (hex_of_bytes (replicate 64 x5c))]}))
                  (Some "http://worker"%string) 3 "http://worker"%string
                  "{}"%string
                  {["hash_sha3_512"%string := PyStr (hex_of_bytes (replicate 64 x5c))]}
                  (replicate 64 x5c)));
    [reflexivity | discriminate | reflexivity | reflexivity
    | apply lookup_singleton_eq | reflexivity].
Defined.

(** X12. The digest string of an instance that was created holds exactly
    128 hexadecimal digits, and every other character in it is ASCII
    whitespace; a digest without whitespace is therefore exactly 128
    characters long. *)
Theorem accepted_digest_shape (environ : gmap string string)
    (urlopen : string → Z → exn + (Z * string))
    (json_loads : string → exn + pyobj)
    (url : option string) (timeout : Z) (self : CFRand) :
  CFRand_init environ urlopen json_loads url timeout = inr self →
  ∃ body payload hex,
    urlopen (_url self) timeout = inr (200, body) ∧
    json_loads body = inr (PyDict payload) ∧
    payload !! "hash_sha3_512"%string = Some (PyStr hex) ∧
    hex_digit_count hex = 128%nat ∧
    Forall (λ c, is_space c = true ∨ is_hex_digit c = true)
           (list_ascii_of_string hex) ∧
    (Forall (λ c, is_space c = false) (list_ascii_of_string hex) →
     String.length hex = 128%nat).
Proof.
  rewrite CFRand_init_unfold.
  destruct (effective_url environ url) as [u|]; [|done].
  destruct (String.eqb_spec u ""); [done|].
  intros (body & payload & hex & Hopen & Hjson & Hfield & Hhex & Hlen & Hu & Ht)
    %fetch_seed_success.
  simpl in *. subst. exists body, payload, hex.
  pose proof (fromhex_digit_count _ _ Hhex) as Hcount. rewrite Hlen in Hcount.
  assert (Hchars : Forall (λ c, is_space c = true ∨ is_hex_digit c = true)
                          (list_ascii_of_string hex)).
  { eapply Forall_impl; [by eapply fromhex_chars|].
    intros c [?|[v Hv]]; [by left|right]. unfold is_hex_digit. by rewrite Hv. }
  repeat split; try done.
  intros Hns. rewrite <- hex_digit_count_all; [done|].
  rewrite Forall_forall in *. intros c Hc.
  destruct (Hchars c Hc) as [Hs|]; [|done]. by rewrite (Hns c Hc) in Hs.
Qed.

Lemma accepted_digest_shape_witness :
  ∃ body payload hex,
    (λ _ _, inr (200, "{}"%string) : exn + (Z * string))
      (_url (mkCFRand "http://worker" 10 (replicate 64 xab))) 10
    = inr (200, body) ∧
    (λ _, inr (PyDict {["hash_sha3_512"%string
                        := PyStr (hex_of_bytes (replicate 64 xab))]})
          : exn + pyobj) body
    = inr (PyDict payload) ∧
    payload !! "hash_sha3_512"%string = Some (PyStr hex) ∧
    hex_digit_count hex = 128%nat ∧
    Forall (λ c, is_space c = true ∨ is_hex_digit c = true)
           (list_ascii_of_string hex) ∧
    (Forall (λ c, is_space c = false) (list_ascii_of_string hex) →
     String.length hex = 128%nat).
Proof.
  apply (accepted_digest_shape ∅ (λ _ _, inr (200, "{}"%string))
           (λ _, inr (PyDict {["hash_sha3_512"%string
                               := PyStr (hex_of_bytes (replicate 64 xab))]}))
           (Some "http://worker"%string) 10
           (mkCFRand "http://worker" 10 (replicate 64 xab))).
  vm_compute. reflexivity.
Defined.

(** ** [load_dotenv] *)

Lemma str_split_once_found sep s :
  char_in sep s = true →
  ∃ k v, str_split_once sep s = [k; v] ∧ char_in sep k = false.
Proof.
  induction s as [|c s IH]; [done|]. simpl.
  destruct (Ascii.eqb c sep) eqn:Hc.
  - intros _. by exists EmptyString, s.
  - intros (k & v & -> & Hk)%IH. exists (String c k), v.
    split; [done|]. simpl. by rewrite Hc.
Qed.

Lemma str_split_once_missing sep s :
  char_in sep s = false → str_split_once sep s = [s].
Proof.
  induction s as [|c s IH]; [done|]. simpl.
  destruct (Ascii.eqb c sep); [done|]. by intros ->%IH.
Qed.

Lemma str_split_once_chars sep c s k v :
  str_split_once sep s = [k; v] →
  char_in c s = false → char_in c k = false ∧ char_in c v = false.
Proof.
  revert k. induction s as [|d s IH]; intros k; [done|]. simpl.
  destruct (Ascii.eqb d sep).
  - intros [= <- <-]. by destruct (Ascii.eqb d c).
  - destruct (str_split_once sep s) as [|h [|v' [|]]] eqn:E; try done.
    intros [= <- <-]. simpl. destruct (Ascii.eqb d c); [done|].
    by apply IH.
Qed.

Lemma char_in_lstrip c s : char_in c s = false → char_in c (str_lstrip s) = false.
Proof.
  induction s as [|d s IH]; [done|]. simpl.
  destruct (py_isspace d); simpl; destruct (Ascii.eqb d c); try done.
Qed.

Lemma char_in_rstrip c s : char_in c s = false → char_in c (str_rstrip s) = false.
Proof.
  induction s as [|d s IH]; [done|]. simpl.
  destruct (Ascii.eqb d c) eqn:Hd; [done|]. intros Hs%IH.
  destruct (str_rstrip s); [destruct (py_isspace d)|]; simpl; by rewrite ?Hd.
Qed.

Lemma char_in_strip c s : char_in c s = false → char_in c (str_strip s) = false.
Proof. intros. by apply char_in_rstrip, char_in_lstrip. Qed.

(** The loop body in terms of the assignment the line stands for. *)
Lemma load_dotenv_line_spec line environ :
  load_dotenv_line line environ
  = match line_assignment line with
    | None => EnvOk environ
    | Some (k, v) =>
        if bool_decide (is_Some (environ !! k)) then EnvOk environ
        else if char_in zero k || char_in zero v then
          EnvRaise (ValueError "embedded null byte") environ
        else EnvOk (<[k := v]> environ)
    end.
Proof.
  unfold load_dotenv_line, line_assignment.
  destruct (_ || _) eqn:Hskip; [done|].
  destruct (char_in "=" (str_strip line)) eqn:Heq; simpl.
  - destruct (str_split_once_found _ _ Heq) as (k & v & -> & Hk).
    destruct (String.eqb_spec (str_strip k) ""); [done|]. simpl.
    destruct (bool_decide _); [done|].
    unfold environ_setitem. destruct (_ || _); [done|].
    destruct (String.eqb_spec (str_strip k) ""); [done|].
    by rewrite (char_in_strip _ _ Hk).
  - by rewrite str_split_once_missing.
Qed.

Lemma load_dotenv_lines_keeps lines environ k v :
  environ !! k = Some v →
  env_of (load_dotenv_lines lines environ) !! k = Some v.
Proof.
  revert environ. induction lines as [|line lines IH]; intros environ Hk; [done|].
  cbn [load_dotenv_lines]. rewrite load_dotenv_line_spec.
  destruct (line_assignment line) as [[k' v']|]; [|by apply IH].
  destruct (bool_decide _) eqn:Hin; [by apply IH|].
  destruct (_ || _); [done|]. apply IH.
  apply bool_decide_eq_false in Hin.
  rewrite lookup_insert_ne; [done|]. intros ->. apply Hin. by rewrite Hk.
Qed.

Lemma load_dotenv_lines_result lines environ environ' k :
  load_dotenv_lines lines environ = EnvOk environ' →
  environ' !! k = match environ !! k with
                  | Some v => Some v
                  | None => first_assignment lines k
                  end.
Proof.
  revert environ. induction lines as [|line lines IH]; intros environ.
  { intros [= <-]. simpl. by destruct (environ !! k). }
  cbn [load_dotenv_lines first_assignment]. rewrite load_dotenv_line_spec.
  destruct (line_assignment line) as [[k' v']|]; [|by apply IH].
  destruct (bool_decide _) eqn:Hin.
  - apply bool_decide_eq_true in Hin as [v0 Hv0]. intros Hrun.
    rewrite (IH _ Hrun).
    destruct (environ !! k) eqn:E; [done|].
    destruct (String.eqb_spec k' k) as [Heq|]; [|done]. subst. congruence.
  - apply bool_decide_eq_false in Hin.
    destruct (_ || _); [done|]. intros Hrun. rewrite (IH _ Hrun).
    destruct (String.eqb_spec k' k) as [Heq|Hne].
    + subst k'. rewrite lookup_insert_eq.
      destruct (environ !! k) eqn:E; [|done]. exfalso. apply Hin.
      rewrite ?E. by eexists.
    + by rewrite lookup_insert_ne.
Qed.

Lemma line_assignment_nul_free line k v :
  char_in zero line = false →
  line_assignment line = Some (k, v) →
  char_in zero k = false ∧ char_in zero v = false.
Proof.
  intros Hnul. unfold line_assignment.
  destruct (_ || _); [done|].
  destruct (str_split_once "=" (str_strip line)) as [|k0 [|v0 [|]]] eqn:E; try done.
  destruct (String.eqb _ _); [done|]. intros [= <- <-].
  destruct (str_split_once_chars _ zero _ _ _ E (char_in_strip _ _ Hnul)).
  split; by apply char_in_strip.
Qed.

Lemma load_dotenv_lines_returns lines environ :
  Forall (λ line, char_in zero line = false) lines →
  ∃ environ', load_dotenv_lines lines environ = EnvOk environ'.
Proof.
  revert environ. induction lines as [|line lines IH]; intros environ Hnul.
  { by eexists. }
  apply Forall_cons in Hnul as [Hline Hrest].
  cbn [load_dotenv_lines]. rewrite load_dotenv_line_spec.
  destruct (line_assignment line) as [[k v]|] eqn:E; [|by apply IH].
  destruct (bool_decide _); [by apply IH|].
  destruct (line_assignment_nul_free _ _ _ Hline E) as [-> ->]. simpl.
  by apply IH.
Qed.

Lemma str_rstrip_cons c s :
  str_rstrip (String c s)
  = match str_rstrip s with
    | EmptyString => if py_isspace c then EmptyString else String c EmptyString
    | rest' => String c rest'
    end.
Proof. reflexivity. Qed.

Lemma str_rstrip_idem s : str_rstrip (str_rstrip s) = str_rstrip s.
Proof.
  induction s as [|c s IH]; [done|]. rewrite str_rstrip_cons.
  destruct (str_rstrip s) as [|d r] eqn:E.
  - destruct (py_isspace c) eqn:Hc; [done|]. simpl. by rewrite Hc.
  - by rewrite str_rstrip_cons, IH.
Qed.

Lemma str_lstrip_rstrip s :
  str_lstrip (str_rstrip (str_lstrip s)) = str_rstrip (str_lstrip s).
Proof.
  induction s as [|c s IH]; [done|]. cbn [str_lstrip].
  destruct (py_isspace c) eqn:Hc; [done|]. rewrite str_rstrip_cons.
  destruct (str_rstrip s); rewrite ?Hc; cbn [str_lstrip]; by rewrite Hc.
Qed.

Lemma str_strip_idem s : str_strip (str_strip s) = str_strip s.
Proof. unfold str_strip. by rewrite str_lstrip_rstrip, str_rstrip_idem. Qed.

Lemma str_split_once_key sep s k v :
  str_split_once sep s = [k; v] → char_in sep k = false.
Proof.
  revert k. induction s as [|c s IH]; intros k; [done|]. simpl.
  destruct (Ascii.eqb c sep) eqn:Hc.
  - by intros [= <- <-].
  - destruct (str_split_once sep s) as [|h [|v' [|]]] eqn:E; try done.
    intros [= <- <-]. simpl. rewrite Hc. by apply IH.
Qed.

Lemma line_assignment_form line k v :
  line_assignment line = Some (k, v) →
  k ≠ ""%string ∧ str_strip k = k ∧ str_strip v = v ∧ char_in "=" k = false.
Proof.
  unfold line_assignment. destruct (_ || _); [done|].
  destruct (str_split_once "=" (str_strip line)) as [|k0 [|v0 [|]]] eqn:E; try done.
  destruct (String.eqb_spec (str_strip k0) ""); [done|]. intros [= <- <-].
  split; [done|]. rewrite !str_strip_idem. split; [done|]. split; [done|].
  apply char_in_strip. by eapply str_split_once_key.
Qed.

Lemma load_dotenv_lines_origin lines environ k v :
  env_of (load_dotenv_lines lines environ) !! k = Some v →
  environ !! k = Some v ∨ ∃ line, line ∈ lines ∧ line_assignment line = Some (k, v).
Proof.
  revert environ. induction lines as [|line lines IH]; intros environ; [by left|].
  cbn [load_dotenv_lines]. rewrite load_dotenv_line_spec.
  assert (Hrest : env_of (load_dotenv_lines lines environ) !! k = Some v →
    environ !! k = Some v
    ∨ ∃ line0, line0 ∈ line :: lines ∧ line_assignment line0 = Some (k, v)).
  { intros [?|(l & Hl & Ha)]%IH; [by left|right].
    exists l. split; [by right|done]. }
  destruct (line_assignment line) as [[k' v']|] eqn:E; [|done].
  destruct (bool_decide _); [done|].
  destruct (_ || _); [by left|].
  intros [Hk|(l & Hl & Ha)]%IH.
  - destruct (decide (k' = k)) as [->|Hne].
    + rewrite lookup_insert_eq in Hk. inversion Hk; subst. right.
      exists line. split; [by left|done].
    + rewrite lookup_insert_ne in Hk by done. by left.
  - right. exists l. split; [by right|done].
Qed.

Section LoadDotenv.
Variable candidates : list string.
Variable path_exists : string → bool.
Variable read_lines : string → exn + list string.

(** X13. [load_dotenv] never overrides the environment: every variable
    that is set before the call has the same value after it, whether the
    call returns or raises.  Without an existing candidate file, and when
    reading the file raises, the environment is left exactly as it was. *)
Theorem load_dotenv_keeps_environment (environ : gmap string string) :
  (∀ k v, environ !! k = Some v →
     env_of (load_dotenv candidates path_exists read_lines environ) !! k = Some v) ∧
  (List.find path_exists candidates = None →
     load_dotenv candidates path_exists read_lines environ = EnvOk environ) ∧
  (∀ path e, List.find path_exists candidates = Some path →
     read_lines path = inl e →
     load_dotenv candidates path_exists read_lines environ = EnvRaise e environ).
Proof.
  unfold load_dotenv. split; [|split].
  - intros k v Hk.
    destruct (List.find path_exists candidates) as [path|]; [|done].
    destruct (read_lines path) as [e|lines]; [done|].
    by apply load_dotenv_lines_keeps.
  - by intros ->.
  - by intros path e -> ->.
Qed.

(** X14. The first existing candidate file is the one that is read, and
    when none of its lines holds a NUL character [load_dotenv] returns.
    The environment it leaves maps every variable that was set before to
    its old value, and every other variable to the value of the first
    line of the file that assigns it: the environment wins over the file,
    and within the file the first assignment wins. *)
Theorem load_dotenv_first_assignment_wins (environ : gmap string string)
    (path : string) (lines : list string) :
  List.find path_exists candidates = Some path →
  read_lines path = inr lines →
  Forall (λ line, char_in zero line = false) lines →
  path_exists path = true ∧
  ∃ environ',
    load_dotenv candidates path_exists read_lines environ = EnvOk environ' ∧
    ∀ k, environ' !! k = match environ !! k with
                         | Some v => Some v
                         | None => first_assignment lines k
                         end.
Proof.
  intros Hfind Hread Hnul. split; [by apply find_some in Hfind as [_ ?]|].
  unfold load_dotenv. rewrite Hfind, Hread.
  destruct (load_dotenv_lines_returns lines environ Hnul) as [environ' Hrun].
  exists environ'. split; [done|]. intros k.
  by apply load_dotenv_lines_result.
Qed.

(** X15. What [load_dotenv] adds to the environment is in stripped form:
    a variable that was not set before and is set afterwards has a
    non-empty name without surrounding whitespace and without an equals
    sign, a value without surrounding whitespace, and both come from one
    line of the file. *)
Theorem load_dotenv_stored_form (environ : gmap string string) (k v : string) :
  environ !! k = None →
  env_of (load_dotenv candidates path_exists read_lines environ) !! k = Some v →
  k ≠ ""%string ∧ str_strip k = k ∧ str_strip v = v ∧ char_in "=" k = false ∧
  ∃ path lines line,
    List.find path_exists candidates = Some path ∧
    read_lines path = inr lines ∧
    line ∈ lines ∧ line_assignment line = Some (k, v).
Proof.
  intros Hnone. unfold load_dotenv.
  destruct (List.find path_exists candidates) as [path|]; [|simpl; congruence].
  destruct (read_lines path) as [e|lines] eqn:Hread; [simpl; congruence|].
  intros [?|(line & Hin & Hassign)]%load_dotenv_lines_origin; [congruence|].
  destruct (line_assignment_form _ _ _ Hassign) as (? & ? & ? & ?).
  repeat split; try done. by exists path, lines, line.
Qed.

End LoadDotenv.

Lemma load_dotenv_keeps_environment_witness :
  env_of (load_dotenv ["client/.env"; ".env"]%string
            (λ p, String.eqb p ".env")
            (λ _, inr ["CFRAND_URL = http://file"; "TOKEN=1"]%string)
            {["CFRAND_URL"%string := "http://shell"%string]})
    !! "CFRAND_URL"%string
  = Some "http://shell"%string.
Proof.
  apply (proj1 (load_dotenv_keeps_environment ["client/.env"; ".env"]%string
                  (λ p, String.eqb p ".env")
                  (λ _, inr ["CFRAND_URL = http://file"; "TOKEN=1"]%string)
                  {["CFRAND_URL"%string := "http://shell"%string]})).
  apply lookup_singleton_eq.
Defined.

Lemma load_dotenv_first_assignment_wins_witness :
  (λ p, String.eqb p ".env") ".env"%string = true ∧
  ∃ environ',
    load_dotenv ["client/.env"; ".env"]%string (λ p, String.eqb p ".env")
      (λ _, inr ["# worker"; "CFRAND_URL = http://file"; "CFRAND_URL=x"]%string)
      ∅
    = EnvOk environ' ∧
    ∀ k, environ' !! k
         = match (∅ : gmap string string) !! k with
           | Some v => Some v
           | None =>
               first_assignment
                 ["# worker"; "CFRAND_URL = http://file"; "CFRAND_URL=x"]%string k
           end.
Proof.
  apply (load_dotenv_first_assignment_wins ["client/.env"; ".env"]%string
           (λ p, String.eqb p ".env")
           (λ _, inr ["# worker"; "CFRAND_URL = http://file"; "CFRAND_URL=x"]%string)
           ∅ ".env"%string);
    [reflexivity | reflexivity | by repeat constructor].
Defined.

Lemma load_dotenv_stored_form_witness :
  "TOKEN"%string ≠ ""%string ∧ str_strip "TOKEN" = "TOKEN"%string ∧
  str_strip "a b" = "a b"%string ∧ char_in "=" "TOKEN" = false ∧
  ∃ path lines line,
    List.find (λ p, String.eqb p ".env") ["client/.env"; ".env"]%string
    = Some path ∧
    (λ _ : string, inr ["  TOKEN =  a b  "%string] : exn + list string) path
    = inr lines ∧
    line ∈ lines ∧ line_assignment line = Some ("TOKEN"%string, "a b"%string).
Proof.
  apply (load_dotenv_stored_form ["client/.env"; ".env"]%string
           (λ p, String.eqb p ".env")
           (λ _, inr ["  TOKEN =  a b  "%string]) ∅);
    [apply lookup_empty | vm_compute; reflexivity].
Defined.

Lemma load_dotenv_lines_app l1 l2 environ :
  load_dotenv_lines (l1 ++ l2) environ
  = match load_dotenv_lines l1 environ with
    | EnvOk environ' => load_dotenv_lines l2 environ'
    | EnvRaise e environ' => EnvRaise e environ'
    end.
Proof.
  revert environ. induction l1 as [|line l1 IH]; intros environ; [done|].
  simpl. destruct (load_dotenv_line line environ); [apply IH|done].
Qed.

(** X16. Blank lines, comment lines and lines without an equals sign
    have no effect: taking such a line out of the file changes neither
    the environment [load_dotenv]'s loop leaves nor whether it raises. *)
Theorem load_dotenv_skips_lines (l1 l2 : list string) (line : string)
    (environ : gmap string string) :
  str_strip line = ""%string
  ∨ String.prefix "#" (str_strip line) = true
  ∨ char_in "=" line = false →
  load_dotenv_lines (l1 ++ line :: l2) environ
  = load_dotenv_lines (l1 ++ l2) environ.
Proof.
  intros Hskip.
  assert (Hline : ∀ env, load_dotenv_line line env = EnvOk env).
  { intros env. unfold load_dotenv_line.
    destruct Hskip as [->|[Hc|Hn]]; [done| |].
    - rewrite Hc. by rewrite orb_true_r.
    - rewrite (char_in_strip _ _ Hn). by destruct (_ || _). }
  rewrite !load_dotenv_lines_app.
  destruct (load_dotenv_lines l1 environ); [|done].
  cbn [load_dotenv_lines]. by rewrite Hline.
Qed.

Lemma load_dotenv_skips_lines_witness :
  load_dotenv_lines (["A=1"%string] ++ "   # B=2 "%string :: ["C=3"%string]) ∅
  = load_dotenv_lines (["A=1"%string] ++ ["C=3"%string]) ∅.
Proof.
  apply (load_dotenv_skips_lines ["A=1"%string] ["C=3"%string] "   # B=2 "%string ∅).
  right. left. reflexivity.
Defined.

(** ** Importing the module *)

(** X17. Importing the module builds the default generator from the URL
    the environment and the file settle on.  With a readable candidate
    file without NUL characters, the URL is [CFRAND_URL] of the process
    environment when that is set (an empty value included), else the
    first assignment of [CFRAND_URL] in the file; when this gives nothing
    or an empty string the import raises [RuntimeError], otherwise the
    default generator is what [_fetch_seed] makes of that URL with a
    timeout of 10.  Without a candidate file only the process environment
    counts. *)
Theorem import_module_url (candidates : list string)
    (path_exists : string → bool) (read_lines : string → exn + list string)
    (urlopen : string → Z → exn + (Z * string))
    (json_loads : string → exn + pyobj) (environ : gmap string string) :
  (∀ path lines,
     List.find path_exists candidates = Some path →
     read_lines path = inr lines →
     Forall (λ line, char_in zero line = false) lines →
     (import_module candidates path_exists read_lines urlopen json_loads environ).2
     = match (match environ !! "CFRAND_URL"%string with
              | Some u => Some u
              | None => first_assignment lines "CFRAND_URL"
              end) with
       | None => inl (RuntimeError "CFRAND_URL is not set; add it to .env")
       | Some u =>
           if String.eqb u "" then
             inl (RuntimeError "CFRAND_URL is not set; add it to .env")
           else _fetch_seed urlopen json_loads (mkCFRand u 10 [])
       end) ∧
  (List.find path_exists candidates = None →
   import_module candidates path_exists read_lines urlopen json_loads environ
   = (environ, CFRand_init environ urlopen json_loads None 10)).
Proof.
  unfold import_module, load_dotenv. split.
  - intros path lines -> -> Hnul.
    destruct (load_dotenv_lines_returns lines environ Hnul) as [environ' Hrun].
    rewrite Hrun. cbn [snd].
    rewrite CFRand_init_unfold. unfold effective_url.
    by rewrite (load_dotenv_lines_result _ _ _ "CFRAND_URL"%string Hrun).
  - by intros ->.
Qed.

Lemma import_module_url_witness :
  (import_module ["client/.env"; ".env"]%string (λ p, String.eqb p ".env")
     (λ _, inr ["# worker"; "CFRAND_URL = http://file"]%string)
     (λ _ _, inl (RuntimeError "unreachable")) (λ _, inr PyNone) ∅).2
  = match (match (∅ : gmap string string) !! "CFRAND_URL"%string with
           | Some u => Some u
           | None =>
               first_assignment ["# worker"; "CFRAND_URL = http://file"]%string
                 "CFRAND_URL"
           end) with
    | None => inl (RuntimeError "CFRAND_URL is not set; add it to .env")
    | Some u =>
        if String.eqb u "" then
          inl (RuntimeError "CFRAND_URL is not set; add it to .env")
        else _fetch_seed (λ _ _, inl (RuntimeError "unreachable"))
               (λ _, inr PyNone) (mkCFRand u 10 [])
    end.
Proof.
  apply (proj1 (import_module_url ["client/.env"; ".env"]%string
                  (λ p, String.eqb p ".env")
                  (λ _, inr ["# worker"; "CFRAND_URL = http://file"]%string)
                  (λ _ _, inl (RuntimeError "unreachable")) (λ _, inr PyNone) ∅)
           ".env"%string ["# worker"; "CFRAND_URL = http://file"]%string);
    [reflexivity | reflexivity | by repeat constructor].
Defined.

(** ** Reach of [_randbits] and [random] *)

(** X18. [_randbits(k)] is onto [[0, 2^k - 1]]: for an instance with a
    64-byte seed, every [k >= 1] and every [v] below [2^k] there is an
    entropy source on which [_randbits(k)] returns [v], after
    [ceil(byte_len / 64)] calls of [os.urandom]. *)
Theorem randbits_reachable (self : CFRand) (fuel : nat) (k v : Z) :
  length (_server_bytes self) = 64%nat →
  1 ≤ k →
  0 ≤ v < 2 ^ k →
  (blocks_needed ((k + 7) `div` 8) ≤ fuel)%nat →
  ∃ w : World,
    urandom_calls w = 0%nat ∧
    _randbits self fuel k w
    = Ok v (advance (blocks_needed ((k + 7) `div` 8)) w).
Proof.
  intros Hseed Hk Hv Hfuel. exists (world_bits self k v).
  split; [done|]. by apply randbits_world_bits.
Qed.

Lemma randbits_reachable_witness :
  ∃ w : World,
    urandom_calls w = 0%nat ∧
    _randbits ones_seed 1 10 w
    = Ok 1023 (advance (blocks_needed ((10 + 7) `div` 8)) w).
Proof.
  apply (randbits_reachable ones_seed 1 10 1023);
    [reflexivity | lia | simpl; lia | vm_compute; lia].
Defined.

(** X19. On an instance with a 64-byte seed [random()] makes exactly one
    call of [os.urandom], what it returns is one of the [2^53] fractions
    [n / 2^53] with [0 <= n < 2^53], and each of these fractions is
    returned on some entropy source. *)
Theorem random_resolution (self : CFRand) (fuel : nat) :
  length (_server_bytes self) = 64%nat →
  (1 ≤ fuel)%nat →
  (∀ w, ∃ n,
     0 ≤ n < 2 ^ 53 ∧
     random self fuel w
     = Ok (inject_Z n / inject_Z (2 ^ 53))%Q (advance 1 w)) ∧
  (∀ n, 0 ≤ n < 2 ^ 53 →
     ∃ w, urandom_calls w = 0%nat ∧
          random self fuel w
          = Ok (inject_Z n / inject_Z (2 ^ 53))%Q (advance 1 w)).
Proof.
  intros Hseed Hfuel.
  assert (Hblocks : blocks_needed ((53 + 7) `div` 8) = 1%nat) by (by vm_compute).
  split.
  - intros w.
    destruct (randbits_eval self fuel 53 w Hseed ltac:(lia)) as (data & _ & Hbits);
      [by rewrite Hblocks|].
    rewrite Hblocks in Hbits.
    assert (H53 : 0 ≤ 53) by lia.
    pose proof (randbits_range _ _ _ _ _ _ H53 Hbits) as Hrange.
    eexists. split; [exact Hrange|].
    unfold random, mbind, M_bind. by rewrite Hbits.
  - intros n Hn. exists (world_bits self 53 n). split; [done|].
    unfold random, mbind, M_bind.
    rewrite randbits_world_bits by (done || lia || by rewrite Hblocks).
    by rewrite Hblocks.
Qed.

Lemma random_resolution_witness :
  ∃ w, urandom_calls w = 0%nat ∧
       random ones_seed 1 w
       = Ok (inject_Z (2 ^ 53 - 1) / inject_Z (2 ^ 53))%Q (advance 1 w).
Proof.
  apply (proj2 (random_resolution ones_seed 1 eq_refl (le_n 1))). simpl. lia.
Defined.

(** ** Entropy consumed by [_randbelow] *)

Lemma randbits_world self fuel k w v w' :
  length (_server_bytes self) = 64%nat →
  1 ≤ k →
  _randbits self fuel k w = Ok v w' →
  w' = advance (blocks_needed ((k + 7) `div` 8)) w.
Proof.
  intros Hseed Hk Hrun.
  set (nb := blocks_needed ((k + 7) `div` 8)).
  apply (randbits_mono _ _ (fuel `max` nb)) in Hrun; [|lia].
  destruct (randbits_eval self (fuel `max` nb) k w Hseed Hk) as (data & _ & Heval);
    [fold nb; lia|].
  fold nb in Heval. congruence.
Qed.

Lemma nth_draw_world self fuel k n w v w' :
  length (_server_bytes self) = 64%nat →
  1 ≤ k →
  nth_draw self fuel k n w = Ok v w' →
  w' = advance (S n * blocks_needed ((k + 7) `div` 8)) w.
Proof.
  intros Hseed Hk. revert w. induction n as [|n IH]; intros w.
  - cbn [nth_draw]. intros Hrun.
    apply randbits_world in Hrun; [|done|done]. subst w'. f_equal; lia.
  - cbn [nth_draw]. unfold mbind, M_bind.
    destruct (_randbits self fuel k w) as [c w1| |] eqn:E; try done.
    apply randbits_world in E; [|done|done]. subst w1.
    intros Hrun. apply IH in Hrun. subst w'.
    rewrite advance_advance. f_equal; lia.
Qed.

(** X20. On an instance with a 64-byte seed, a call [_randbelow(upper)]
    that returns has made a whole number of draws, each costing
    [ceil(byte_len / 64)] calls of [os.urandom]: it leaves the entropy
    source advanced by [(n + 1) * ceil(byte_len / 64)] calls, where [n] is
    the number of rejected candidates. *)
Theorem randbelow_entropy_cost (self : CFRand) (fuel : nat) (upper : Z)
    (w : World) (v : Z) (w' : World) :
  length (_server_bytes self) = 64%nat →
  _randbelow self fuel upper w = Ok v w' →
  ∃ n : nat,
    (n < fuel)%nat ∧
    w' = advance (S n * blocks_needed ((bit_length upper + 7) `div` 8)) w ∧
    (∀ i, (i < n)%nat →
       ∃ c wi, nth_draw self fuel (bit_length upper) i w = Ok c wi ∧ upper ≤ c).
Proof.
  intros Hseed Hrun.
  assert (Hpos : 0 < upper).
  { unfold _randbelow in Hrun. by destruct (Z.leb_spec upper 0). }
  rewrite randbelow_unfold in Hrun by done.
  apply randbelow_loop_first in Hrun as (n & Hn & Hacc & _ & Hprev).
  exists n. split; [done|]. split; [|done].
  eapply nth_draw_world; [done| |exact Hacc].
  destruct (bit_length_least upper Hpos) as (Hk0 & Hup & _).
  destruct (Z.eq_dec (bit_length upper) 0) as [Hz|]; [|lia].
  rewrite Hz in Hup. simpl in Hup. lia.
Qed.

Lemma randbelow_entropy_cost_witness :
  ∃ n : nat,
    (n < 3)%nat ∧
    advance 3 stepping_world
    = advance (S n * blocks_needed ((bit_length 5 + 7) `div` 8)) stepping_world ∧
    (∀ i, (i < n)%nat →
       ∃ c wi, nth_draw zero_seed 3 (bit_length 5) i stepping_world = Ok c wi
               ∧ 5 ≤ c).
Proof.
  apply (randbelow_entropy_cost zero_seed 3 5 stepping_world 3
           (advance 3 stepping_world)); reflexivity.
Defined.
